(** * PLDC quiz: the session and progress logic of [src/App.tsx]

    A shallow embedding of the quiz application's core: the question bank
    loader ([processQuestions]), the answer normalizer ([normalize]), the
    sampler ([shuffle] and the [filtered] memo), the progress store
    ([loadProgress], [markSeen], [markCorrect], [markWrong], [toggleStar])
    and the event handlers of the [App] component ([handleOptionClick],
    [checkFill], [next], [prev], [onKey]), the filter menus and the render
    that follows a change in them.

    JavaScript strings are sequences of UTF-16 code units and are modelled
    as [list N].  JavaScript numbers that hold indices and counters are
    modelled as [Z]. *)

From Stdlib Require Import ZArith NArith Lia Bool Ascii String.
From stdpp Require Import base decidable option list strings gmap pretty.

Local Open Scope N_scope.
Set Warnings "-register-all".

(** ** Strings *)

Abbreviation jsstring := (list N).

(** The code units of an ASCII literal. *)
Fixpoint lit (s : string) : jsstring :=
  match s with
  | EmptyString => []
  | String a s' => N_of_ascii a :: lit s'
  end.

(** [String(n)] for an integral number [n]. *)
Definition String_of_number (n : Z) : jsstring := lit (pretty n).

Module Text.

(** The characters matched by [\s] in a regular expression, which are also
    the ones removed by [String.prototype.trim] (WhiteSpace and
    LineTerminator of ECMA-262). *)
Definition isWhiteSpace (c : N) : bool :=
  ((9 <=? c) && (c <=? 13)) || (c =? 32) || (c =? 0xA0) || (c =? 0x1680)
  || ((0x2000 <=? c) && (c <=? 0x200A)) || (c =? 0x2028) || (c =? 0x2029)
  || (c =? 0x202F) || (c =? 0x205F) || (c =? 0x3000) || (c =? 0xFEFF).

(** [[a-z0-9]] *)
Definition isLowerAlnum (c : N) : bool :=
  ((97 <=? c) && (c <=? 122)) || ((48 <=? c) && (c <=? 57)).

(** The class of combining diacritical marks, U+0300 to U+036F. *)
Definition isCombiningMark (c : N) : bool := (0x300 <=? c) && (c <=? 0x36F).

Fixpoint trimStart (s : jsstring) : jsstring :=
  match s with
  | [] => []
  | c :: s' => if isWhiteSpace c then trimStart s' else s
  end.

Fixpoint trimEnd (s : jsstring) : jsstring :=
  match s with
  | [] => []
  | c :: s' =>
      match trimEnd s' with
      | [] => if isWhiteSpace c then [] else [c]
      | t => c :: t
      end
  end.

(** [s.trim()] *)
Definition trim (s : jsstring) : jsstring := trimEnd (trimStart s).

(** The first [replace] of [normalize]: every combining mark is deleted. *)
Definition stripMarks (s : jsstring) : jsstring :=
  filter (fun c => isCombiningMark c = false) s.

(** [s.replace(/[^a-z0-9\s]/g, " ")] *)
Definition blankOthers (s : jsstring) : jsstring :=
  (fun c => if isLowerAlnum c || isWhiteSpace c then c else 32) <$> s.

(** [s.replace(/\s+/g, " ")] : every maximal run of white space becomes one
    space.  [inRun] tells that the previous code unit was white space. *)
Fixpoint collapseFrom (inRun : bool) (s : jsstring) : jsstring :=
  match s with
  | [] => []
  | c :: s' =>
      if isWhiteSpace c
      then (if inRun then collapseFrom true s' else 32 :: collapseFrom true s')
      else c :: collapseFrom false s'
  end.

Definition collapseSpaces (s : jsstring) : jsstring := collapseFrom false s.

(** The code units the second replacement keeps: [[a-z0-9\s]]. *)
Definition alnumOrWhite (c : N) : bool := isLowerAlnum c || isWhiteSpace c.

(** The code units that survive normalization: [[a-z0-9 ]]. *)
Definition plain (c : N) : bool := isLowerAlnum c || (c =? 32).

(** The two host functions [normalize] calls that depend on the Unicode
    character database: [String.prototype.toLowerCase] and
    [String.prototype.normalize("NFD")].  The development is parametric in
    them. *)
Class Unicode := {
  toLowerCase : jsstring -> jsstring;
  normalizeNFD : jsstring -> jsstring
}.

(** What the proofs about [normalize] use of a host function: it leaves a
    string over [[a-z0-9 ]] alone. *)
Definition fixesPlain (f : jsstring -> jsstring) : Prop :=
  forall s, forallb plain s = true -> f s = s.

(** No space follows a space; [afterSpace] tells that the code unit before
    [s] was one. *)
Fixpoint squeezed (afterSpace : bool) (s : jsstring) : bool :=
  match s with
  | [] => true
  | c :: s' =>
      if c =? 32 then negb afterSpace && squeezed true s' else squeezed false s'
  end.

(** The shape of a normalized string: words over [[a-z0-9]] separated by
    single spaces. *)
Definition canonical (s : jsstring) : Prop :=
  forallb plain s = true /\ squeezed false s = true /\ trim s = s.

Section Normalize.
Context {U : Unicode}.

(** [normalize], lines 39-48. *)
Definition normalize (s : jsstring) : jsstring :=
  trim (collapseSpaces (blankOthers (stripMarks (normalizeNFD (toLowerCase (trim s)))))).

End Normalize.

End Text.

(** ** A Unicode instance for the Latin and Vietnamese repertoire

    The question bank is Vietnamese.  This instance implements the two host
    functions by tables that follow the Unicode character database on every
    code unit below U+0100 and on the Vietnamese letters (the twelve vowels
    with their five tone marks, and the letter d with stroke, in both
    cases).  Every other code unit is left as it is, and combining marks
    typed one by one are not put in canonical order. *)
Module Vietnamese.
Import Text.

Definition lowerUnit (c : N) : N :=
  if (0x41 <=? c) && (c <=? 0x5A) then c + 32
  else if (0xC0 <=? c) && (c <=? 0xDE) && negb (c =? 0xD7) then c + 32
  else if (c =? 0x102) || (c =? 0x110) || (c =? 0x128) || (c =? 0x168)
          || (c =? 0x1A0) || (c =? 0x1AF) then c + 1
  else if (0x1EA0 <=? c) && (c <=? 0x1EFF) && N.even c then c + 1
  else c.

(** One step of canonical decomposition: a precomposed letter, the letter it
    is built on and the mark added to it (UnicodeData.txt, field 5). *)
Definition decomposition : list (N * (N * N)) :=
  [ (0xC0, (0x41, 0x300)); (0xC1, (0x41, 0x301)); (0xC2, (0x41, 0x302));
    (0xC3, (0x41, 0x303)); (0xC4, (0x41, 0x308)); (0xC5, (0x41, 0x30A));
    (0xC7, (0x43, 0x327)); (0xC8, (0x45, 0x300)); (0xC9, (0x45, 0x301));
    (0xCA, (0x45, 0x302)); (0xCB, (0x45, 0x308)); (0xCC, (0x49, 0x300));
    (0xCD, (0x49, 0x301)); (0xCE, (0x49, 0x302)); (0xCF, (0x49, 0x308));
    (0xD1, (0x4E, 0x303)); (0xD2, (0x4F, 0x300)); (0xD3, (0x4F, 0x301));
    (0xD4, (0x4F, 0x302)); (0xD5, (0x4F, 0x303)); (0xD6, (0x4F, 0x308));
    (0xD9, (0x55, 0x300)); (0xDA, (0x55, 0x301)); (0xDB, (0x55, 0x302));
    (0xDC, (0x55, 0x308)); (0xDD, (0x59, 0x301)); (0xE0, (0x61, 0x300));
    (0xE1, (0x61, 0x301)); (0xE2, (0x61, 0x302)); (0xE3, (0x61, 0x303));
    (0xE4, (0x61, 0x308)); (0xE5, (0x61, 0x30A)); (0xE7, (0x63, 0x327));
    (0xE8, (0x65, 0x300)); (0xE9, (0x65, 0x301)); (0xEA, (0x65, 0x302));
    (0xEB, (0x65, 0x308)); (0xEC, (0x69, 0x300)); (0xED, (0x69, 0x301));
    (0xEE, (0x69, 0x302)); (0xEF, (0x69, 0x308)); (0xF1, (0x6E, 0x303));
    (0xF2, (0x6F, 0x300)); (0xF3, (0x6F, 0x301)); (0xF4, (0x6F, 0x302));
    (0xF5, (0x6F, 0x303)); (0xF6, (0x6F, 0x308)); (0xF9, (0x75, 0x300));
    (0xFA, (0x75, 0x301)); (0xFB, (0x75, 0x302)); (0xFC, (0x75, 0x308));
    (0xFD, (0x79, 0x301)); (0xFF, (0x79, 0x308)); (0x102, (0x41, 0x306));
    (0x103, (0x61, 0x306)); (0x128, (0x49, 0x303)); (0x129, (0x69, 0x303));
    (0x168, (0x55, 0x303)); (0x169, (0x75, 0x303)); (0x1A0, (0x4F, 0x31B));
    (0x1A1, (0x6F, 0x31B)); (0x1AF, (0x55, 0x31B)); (0x1B0, (0x75, 0x31B));
    (0x1EA0, (0x41, 0x323)); (0x1EA1, (0x61, 0x323)); (0x1EA2, (0x41, 0x309));
    (0x1EA3, (0x61, 0x309)); (0x1EA4, (0xC2, 0x301)); (0x1EA5, (0xE2, 0x301));
    (0x1EA6, (0xC2, 0x300)); (0x1EA7, (0xE2, 0x300)); (0x1EA8, (0xC2, 0x309));
    (0x1EA9, (0xE2, 0x309)); (0x1EAA, (0xC2, 0x303)); (0x1EAB, (0xE2, 0x303));
    (0x1EAC, (0x1EA0, 0x302)); (0x1EAD, (0x1EA1, 0x302)); (0x1EAE, (0x102, 0x301));
    (0x1EAF, (0x103, 0x301)); (0x1EB0, (0x102, 0x300)); (0x1EB1, (0x103, 0x300));
    (0x1EB2, (0x102, 0x309)); (0x1EB3, (0x103, 0x309)); (0x1EB4, (0x102, 0x303));
    (0x1EB5, (0x103, 0x303)); (0x1EB6, (0x1EA0, 0x306)); (0x1EB7, (0x1EA1, 0x306));
    (0x1EB8, (0x45, 0x323)); (0x1EB9, (0x65, 0x323)); (0x1EBA, (0x45, 0x309));
    (0x1EBB, (0x65, 0x309)); (0x1EBC, (0x45, 0x303)); (0x1EBD, (0x65, 0x303));
    (0x1EBE, (0xCA, 0x301)); (0x1EBF, (0xEA, 0x301)); (0x1EC0, (0xCA, 0x300));
    (0x1EC1, (0xEA, 0x300)); (0x1EC2, (0xCA, 0x309)); (0x1EC3, (0xEA, 0x309));
    (0x1EC4, (0xCA, 0x303)); (0x1EC5, (0xEA, 0x303)); (0x1EC6, (0x1EB8, 0x302));
    (0x1EC7, (0x1EB9, 0x302)); (0x1EC8, (0x49, 0x309)); (0x1EC9, (0x69, 0x309));
    (0x1ECA, (0x49, 0x323)); (0x1ECB, (0x69, 0x323)); (0x1ECC, (0x4F, 0x323));
    (0x1ECD, (0x6F, 0x323)); (0x1ECE, (0x4F, 0x309)); (0x1ECF, (0x6F, 0x309));
    (0x1ED0, (0xD4, 0x301)); (0x1ED1, (0xF4, 0x301)); (0x1ED2, (0xD4, 0x300));
    (0x1ED3, (0xF4, 0x300)); (0x1ED4, (0xD4, 0x309)); (0x1ED5, (0xF4, 0x309));
    (0x1ED6, (0xD4, 0x303)); (0x1ED7, (0xF4, 0x303)); (0x1ED8, (0x1ECC, 0x302));
    (0x1ED9, (0x1ECD, 0x302)); (0x1EDA, (0x1A0, 0x301)); (0x1EDB, (0x1A1, 0x301));
    (0x1EDC, (0x1A0, 0x300)); (0x1EDD, (0x1A1, 0x300)); (0x1EDE, (0x1A0, 0x309));
    (0x1EDF, (0x1A1, 0x309)); (0x1EE0, (0x1A0, 0x303)); (0x1EE1, (0x1A1, 0x303));
    (0x1EE2, (0x1A0, 0x323)); (0x1EE3, (0x1A1, 0x323)); (0x1EE4, (0x55, 0x323));
    (0x1EE5, (0x75, 0x323)); (0x1EE6, (0x55, 0x309)); (0x1EE7, (0x75, 0x309));
    (0x1EE8, (0x1AF, 0x301)); (0x1EE9, (0x1B0, 0x301)); (0x1EEA, (0x1AF, 0x300));
    (0x1EEB, (0x1B0, 0x300)); (0x1EEC, (0x1AF, 0x309)); (0x1EED, (0x1B0, 0x309));
    (0x1EEE, (0x1AF, 0x303)); (0x1EEF, (0x1B0, 0x303)); (0x1EF0, (0x1AF, 0x323));
    (0x1EF1, (0x1B0, 0x323)); (0x1EF2, (0x59, 0x300)); (0x1EF3, (0x79, 0x300));
    (0x1EF4, (0x59, 0x323)); (0x1EF5, (0x79, 0x323)); (0x1EF6, (0x59, 0x309));
    (0x1EF7, (0x79, 0x309)); (0x1EF8, (0x59, 0x303)); (0x1EF9, (0x79, 0x303)) ].

Fixpoint lookupUnit {B} (c : N) (table : list (N * B)) : option B :=
  match table with
  | [] => None
  | (k, v) :: rest => if c =? k then Some v else lookupUnit c rest
  end.

(** Full canonical decomposition of one code unit; a letter of the table
    decomposes in at most two steps. *)
Fixpoint decompose (depth : nat) (c : N) : jsstring :=
  match depth with
  | O => [c]
  | S d =>
      match lookupUnit c decomposition with
      | Some (base, mark) => decompose d base ++ [mark]
      | None => [c]
      end
  end.

#[export] Instance table : Unicode := {
  toLowerCase s := lowerUnit <$> s;
  normalizeNFD s := s ≫= decompose 2
}.

End Vietnamese.

(** ** The question bank ([types.ts] and [processQuestions]) *)
Module Bank.

Inductive QType :=
  | fill_in_blank
  | multiple_choice_one_correct
  | multiple_choice_best_answer
  | true_false.

#[export] Instance QType_eq_dec : EqDecision QType.
Proof. solve_decision. Defined.

Record RawOption := {
  o_id : jsstring;
  o_text : jsstring;
  is_correct : bool
}.

(** An optional field ([answer?], [options?], [explanation?]) is [None] when
    the property is absent.  The records of [types.ts] share field names
    ([id], [type], [options], [explanation]); here they carry the prefix
    [o_], [raw_] or [q_]. *)
Record RawQuestion := {
  raw_id : Z;
  raw_type : QType;
  type_description : jsstring;
  question : jsstring;
  answer : option jsstring;
  raw_options : option (list RawOption);
  raw_explanation : option jsstring
}.

Record Question := {
  q_id : jsstring;
  q_type : QType;
  typeLabel : jsstring;
  prompt : jsstring;
  options : option (list jsstring);
  correctIndex : option Z;
  correctAnswer : option jsstring;
  explanation : option jsstring
}.

(** [Array.prototype.findIndex]: the index of the first element that
    satisfies [p], and [-1] when there is none.  [from] is the index of the
    head of [l]. *)
Fixpoint findIndexFrom {A} (p : A -> bool) (from : Z) (l : list A) : Z :=
  match l with
  | [] => (-1)%Z
  | x :: l' => if p x then from else findIndexFrom p (from + 1)%Z l'
  end.

Definition findIndex {A} (p : A -> bool) (l : list A) : Z := findIndexFrom p 0%Z l.

(** The body of the [raw.map] callback, lines 9-32.  An array is truthy even
    when it is empty, so the test [if (q.options)] only asks whether the
    property is there. *)
Definition processQuestion (q : RawQuestion) : Question :=
  let base := {|
    q_id := String_of_number (raw_id q);
    q_type := raw_type q;
    typeLabel := type_description q;
    prompt := question q;
    options := None;
    correctIndex := None;
    correctAnswer := None;
    explanation := raw_explanation q |} in
  if decide (raw_type q = fill_in_blank) then
    {| q_id := q_id base; q_type := q_type base; typeLabel := typeLabel base;
       prompt := prompt base; options := None; correctIndex := None;
       correctAnswer := answer q;
       explanation := explanation base |}
  else
    match raw_options q with
    | Some opts =>
        let correctIdx := findIndex is_correct opts in
        {| q_id := q_id base; q_type := q_type base; typeLabel := typeLabel base;
           prompt := prompt base;
           options := Some (o_text <$> opts);
           correctIndex := Some correctIdx;
           correctAnswer := None;
           explanation := explanation base |}
    | None => base
    end.

Definition processQuestions (raw : list RawQuestion) : list Question :=
  processQuestion <$> raw.

(** The number of options flagged correct in a raw entry. *)
Definition flagged (opts : list RawOption) : nat :=
  length (filter (fun o => is_correct o = true) opts).

(** The data-model invariant of a processed choice question:
    [0 <= correctIndex < len(options)]. *)
Definition correctIndexInRange (q : Question) : Prop :=
  match options q, correctIndex q with
  | Some ops, Some i => (0 <= i < Z.of_nat (length ops))%Z
  | _, _ => False
  end.

End Bank.

(** ** The progress store *)
Module Store.

(** [Progress] of [types.ts]: four records keyed by question id. *)
Record Progress := {
  seen : gmap jsstring Z;
  wrong : gmap jsstring Z;
  correct : gmap jsstring Z;
  starred : gmap jsstring bool
}.

Definition emptyProgress : Progress :=
  {| seen := ∅; wrong := ∅; correct := ∅; starred := ∅ |}.

(** [rec[qid] ?? 0] *)
Definition count (rec : gmap jsstring Z) (qid : jsstring) : Z :=
  default 0%Z (rec !! qid).

(** The updaters passed to [setProgress], lines 167-193. *)
Definition markSeen (qid : jsstring) (p : Progress) : Progress :=
  {| seen := <[qid := (count (seen p) qid + 1)%Z]> (seen p);
     wrong := wrong p; correct := correct p; starred := starred p |}.

Definition markCorrect (qid : jsstring) (p : Progress) : Progress :=
  {| seen := seen p; wrong := wrong p;
     correct := <[qid := (count (correct p) qid + 1)%Z]> (correct p);
     starred := starred p |}.

Definition markWrong (qid : jsstring) (p : Progress) : Progress :=
  {| seen := seen p;
     wrong := <[qid := (count (wrong p) qid + 1)%Z]> (wrong p);
     correct := correct p; starred := starred p |}.

(** [!p.starred[qid]] is [true] when the entry is missing. *)
Definition toggleStar (qid : jsstring) (p : Progress) : Progress :=
  {| seen := seen p; wrong := wrong p; correct := correct p;
     starred := <[qid := negb (default false (starred p !! qid))]> (starred p) |}.

(** *** Loading the persisted document

    [loadProgress] runs on whatever [JSON.parse] returns, so it is modelled
    on JSON values; the cast [as Progress] does nothing at run time.  An
    object lists its own properties, each key once; the value of a number
    is never looked at. *)
Inductive json :=
  | JNull
  | JBool (b : bool)
  | JNumber (n : Z)
  | JString (s : jsstring)
  | JArray (items : list json)
  | JObject (props : list (jsstring * json)).

(** Exceptions and computations that may throw. *)
Inductive exn := Error (message : jsstring) | SyntaxError | TypeError | SecurityError.

Inductive result (A : Type) :=
  | Return (a : A)
  | Throw (e : exn).
Arguments Return {A} a.
Arguments Throw {A} e.

Definition bind {A B} (c : result A) (k : A -> result B) : result B :=
  match c with
  | Return a => k a
  | Throw e => Throw e
  end.

Notation "x <- c ;; k" := (bind c (fun x => k))
  (at level 100, c at next level, right associativity).

(** [try { body } catch { handler }] *)
Definition tryCatch {A} (body : result A) (handler : A) : A :=
  match body with
  | Return a => a
  | Throw _ => handler
  end.

(** [localStorage]: either the browser refuses access to it, and every use
    throws, or it holds string items. *)
Inductive Storage :=
  | Unavailable
  | Items (items : gmap jsstring jsstring).

(** [localStorage.getItem(k)]; [None] is [null]. *)
Definition getItem (ls : Storage) (k : jsstring) : result (option jsstring) :=
  match ls with
  | Unavailable => Throw SecurityError
  | Items items => Return (items !! k)
  end.

Fixpoint assoc (k : jsstring) (props : list (jsstring * json)) : option json :=
  match props with
  | [] => None
  | (k', v) :: rest => if decide (k = k') then Some v else assoc k rest
  end.

(** [v.k] for one of the keys [seen], [wrong], [correct], [starred]: reading
    a property of [null] throws; a primitive or an array has no such
    property; [None] is [undefined]. *)
Definition getProp (v : json) (k : jsstring) : result (option json) :=
  match v with
  | JNull => Throw TypeError
  | JObject props => Return (assoc k props)
  | _ => Return None
  end.

(** [x ?? {}] *)
Definition orEmptyObject (x : option json) : json :=
  match x with
  | None | Some JNull => JObject []
  | Some v => v
  end.

(** The value [loadProgress] returns, before the cast. *)
Record Document := {
  d_seen : json;
  d_wrong : json;
  d_correct : json;
  d_starred : json
}.

Definition emptyDocument : Document :=
  {| d_seen := JObject []; d_wrong := JObject [];
     d_correct := JObject []; d_starred := JObject [] |}.

Definition LS_KEY : jsstring := lit "pldc_quiz_progress_v2".

Section Load.
(** [JSON.parse], which throws a [SyntaxError] on a text that is not
    JSON. *)
Variable JSON_parse : jsstring -> result json.

(** The [try] block of [loadProgress], lines 72-80.  [!raw] holds for
    [null] and for the empty string. *)
Definition loadProgress_try (ls : Storage) : result Document :=
  raw <- getItem ls LS_KEY ;;
  match raw with
  | None | Some [] => Throw (Error (lit "no data"))
  | Some text =>
      parsed <- JSON_parse text ;;
      s <- getProp parsed (lit "seen") ;;
      w <- getProp parsed (lit "wrong") ;;
      c <- getProp parsed (lit "correct") ;;
      st <- getProp parsed (lit "starred") ;;
      Return {| d_seen := orEmptyObject s; d_wrong := orEmptyObject w;
                d_correct := orEmptyObject c; d_starred := orEmptyObject st |}
  end.

(** [loadProgress], lines 70-84. *)
Definition loadProgress (ls : Storage) : Document :=
  tryCatch (loadProgress_try ls) emptyDocument.

(** The persisted data is missing or corrupt: the storage cannot be read,
    the item is absent or empty, or its text does not parse. *)
Definition missingOrCorrupt (ls : Storage) : Prop :=
  match getItem ls LS_KEY with
  | Throw _ => True
  | Return None => True
  | Return (Some []) => True
  | Return (Some text) => exists e, JSON_parse text = Throw e
  end.
End Load.

End Store.

(** ** The sampler ([shuffle] and the [filtered] memo) *)
Module Sampler.
Import Bank Store.

(** [Filters] of [types.ts]. *)
Inductive TypeFilter := type_all | type_only (t : QType).
Inductive Mode := random20 | mode_all | wrongOnly.

#[export] Instance Mode_eq_dec : EqDecision Mode.
Proof. solve_decision. Defined.

Record Filters := {
  f_type : TypeFilter;
  f_mode : Mode;
  f_shuffle : bool
}.

(** [[a[i], a[j]] = [a[j], a[i]]]: the right-hand side is read first, then
    [a[i]] and [a[j]] are written in that order.  [shuffle] only calls it
    with [j <= i < a.length]; out of that range the model leaves [a] as it
    is. *)
Definition swap {A} (a : list A) (i j : nat) : list A :=
  match a !! i, a !! j with
  | Some ai, Some aj => <[j := ai]> (<[i := aj]> a)
  | _, _ => a
  end.

(** The loop of [shuffle], lines 53-56, run from index [i] down to 1.
    [Math.random()] is a number in [[0, 1)], so
    [Math.floor(Math.random() * (i + 1))] is some index in [0..i]; the model
    takes the draws from a stream [random] of naturals, [call] counting the
    calls made so far, and reduces the draw modulo [i + 1]. *)
Fixpoint shuffleLoop {A} (random : nat -> nat) (call : nat) (i : nat) (a : list A)
  : list A :=
  match i with
  | O => a
  | S i' =>
      let j := (random call `mod` (i + 1))%nat in
      shuffleLoop random (S call) i' (swap a i j)
  end.

(** [shuffle], lines 51-58. *)
Definition shuffle {A} (random : nat -> nat) (arr : list A) : list A :=
  shuffleLoop random 0 (length arr - 1)%nat arr.

(** [q.type === filters.type] *)
Definition typeMatches (f : TypeFilter) (q : Question) : bool :=
  match f with
  | type_all => true
  | type_only t => bool_decide (q_type q = t)
  end.

(** [(currentProgress.wrong[q.id] ?? 0) > (currentProgress.correct[q.id] ?? 0)] *)
Definition missedMore (currentProgress : Progress) (q : Question) : bool :=
  (count (correct currentProgress) (q_id q) <? count (wrong currentProgress) (q_id q))%Z.

(** [list.slice(0, Math.min(20, list.length))] *)
Definition first20 {A} (l : list A) : list A :=
  take (Z.to_nat (Z.min 20 (Z.of_nat (length l)))) l.

(** The callback of the [filtered] memo, lines 105-129.  [currentProgress]
    is what [loadProgress()] returns when the memo is computed, read at type
    [Progress]; [random] supplies the draws of [Math.random]. *)
Definition filtered (QUESTIONS : list Question) (filters : Filters)
    (currentProgress : Progress) (random : nat -> nat) : list Question :=
  let list0 := QUESTIONS in
  let list1 :=
    match f_type filters with
    | type_all => list0
    | type_only t => filter (fun q => q_type q = t) list0
    end in
  let list2 :=
    if decide (f_mode filters = wrongOnly)
    then filter (fun q => missedMore currentProgress q = true) list1
    else list1 in
  let list3 := if f_shuffle filters then shuffle random list2 else list2 in
  let list4 :=
    if decide (f_mode filters = random20) then first20 list3 else list3 in
  list4.

(** The questions that pass the type filter. *)
Definition ofType (f : TypeFilter) (QUESTIONS : list Question) : list Question :=
  filter (fun q => typeMatches f q = true) QUESTIONS.

End Sampler.

(** ** The [App] component: state, handlers and events *)
Module App.
Import Text Bank Store Sampler.

(** The state cells of the component.  [working] is the current value of
    the [filtered] memo. *)
Record State := {
  progress : Progress;
  working : list Question;
  idx : Z;
  selected : option Z;
  fillValue : jsstring;
  revealed : bool;
  isCorrect : option bool
}.

(** [const total = filtered.length] *)
Definition total (st : State) : Z := Z.of_nat (length (working st)).

(** [const current = filtered[idx]]; [None] is [undefined]. *)
Definition current (st : State) : option Question :=
  if (0 <=? idx st)%Z then working st !! Z.to_nat (idx st) else None.

Definition setIdx (v : Z) (st : State) : State :=
  {| progress := progress st; working := working st; idx := v;
     selected := selected st; fillValue := fillValue st;
     revealed := revealed st; isCorrect := isCorrect st |}.

Definition setFillValue (v : jsstring) (st : State) : State :=
  {| progress := progress st; working := working st; idx := idx st;
     selected := selected st; fillValue := v;
     revealed := revealed st; isCorrect := isCorrect st |}.

Definition setProgress (f : Progress -> Progress) (st : State) : State :=
  {| progress := f (progress st); working := working st; idx := idx st;
     selected := selected st; fillValue := fillValue st;
     revealed := revealed st; isCorrect := isCorrect st |}.

(** What both graders do once they have decided [ok] for the question
    [qid]: [markSeen], then [markCorrect] or [markWrong], then
    [setIsCorrect(ok)] and [setRevealed(true)].  The updaters queued with
    [setProgress] run in the order of the calls. *)
Definition grade (qid : jsstring) (ok : bool) (sel : option Z) (st : State) : State :=
  {| progress :=
       (if ok then markCorrect qid else markWrong qid) (markSeen qid (progress st));
     working := working st; idx := idx st;
     selected := sel; fillValue := fillValue st;
     revealed := true; isCorrect := Some ok |}.

(** [optIdx === current.correctIndex]; a question without [correctIndex]
    compares [undefined] with a number. *)
Definition isCorrectOption (optIdx : Z) (cur : Question) : bool :=
  match correctIndex cur with
  | Some c => (optIdx =? c)%Z
  | None => false
  end.

(** [handleOptionClick], lines 196-212. *)
Definition handleOptionClick (optIdx : Z) (st : State) : State :=
  if revealed st then st
  else
    match current st with
    | None => st
    | Some cur =>
        grade (q_id cur) (isCorrectOption optIdx cur) (Some optIdx) st
    end.

(** [!s.trim()] *)
Definition isBlank (s : jsstring) : bool :=
  match trim s with
  | [] => true
  | _ => false
  end.

Section Handlers.
Context {U : Unicode}.

(** The comparison [ok] of [checkFill]: the normalized input against the
    normalized [current.correctAnswer], an absent answer counting as the
    empty string. *)
Definition isCorrectText (input : jsstring) (cur : Question) : bool :=
  bool_decide (normalize input = normalize (default [] (correctAnswer cur))).

(** [checkFill], lines 215-229. *)
Definition checkFill (st : State) : State :=
  match current st with
  | None => st
  | Some cur =>
      if negb (bool_decide (q_type cur = fill_in_blank)) then st
      else if isBlank (fillValue st) then st
      else grade (q_id cur) (isCorrectText (fillValue st) cur) (selected st) st
  end.
End Handlers.

(** [next] and [prev], lines 231-237. *)
Definition next (st : State) : State :=
  if (idx st <? total st - 1)%Z then setIdx (idx st + 1)%Z st else st.

Definition prev (st : State) : State :=
  if (0 <? idx st)%Z then setIdx (idx st - 1)%Z st else st.

(** The effect "Reset states when question changes", lines 142-150: it runs
    after a render in which [idx] or [current?.id] differs from the render
    before. *)
Definition resetQuestion (st : State) : State :=
  {| progress := progress st; working := working st; idx := idx st;
     selected := None; fillValue := []; revealed := false; isCorrect := None |}.

Definition questionChanged (before after : State) : bool :=
  negb (idx before =? idx after)%Z
  || negb (bool_decide (q_id <$> current before = q_id <$> current after)).

Definition afterRender (before after : State) : State :=
  if questionChanged before after then resetQuestion after else after.

(** *** Vocabulary of the statements about the handlers *)

(** The three counters of a question in a state. *)
Definition seenCount (st : State) (qid : jsstring) : Z := count (seen (progress st)) qid.
Definition correctCount (st : State) (qid : jsstring) : Z := count (correct (progress st)) qid.
Definition wrongCount (st : State) (qid : jsstring) : Z := count (wrong (progress st)) qid.

(** No counter of any question differs between [st] and [st']. *)
Definition sameCounters (st st' : State) : Prop :=
  seen (progress st') = seen (progress st)
  /\ correct (progress st') = correct (progress st)
  /\ wrong (progress st') = wrong (progress st).

(** [st'] differs from [st] at most in the counters of the question that is
    current in [st]: the entries of every other id and all the stars are
    the same. *)
Definition framed (st st' : State) : Prop :=
  starred (progress st') = starred (progress st)
  /\ forall qid, q_id <$> current st <> Some qid ->
       seen (progress st') !! qid = seen (progress st) !! qid
       /\ correct (progress st') !! qid = correct (progress st) !! qid
       /\ wrong (progress st') !! qid = wrong (progress st) !! qid.

(** [0 <= position < len(WorkingSet)] *)
Definition inRange (st : State) : Prop := (0 <= idx st < total st)%Z.

(** What an event may do to the position: nothing, one step forward below
    the last index, or one step back above index 0; the working set stays. *)
Definition moved (st st' : State) : Prop :=
  working st' = working st
  /\ (idx st' = idx st
      \/ (idx st' = idx st + 1 /\ idx st < total st - 1)%Z
      \/ (idx st' = idx st - 1 /\ 0 < idx st)%Z).

(** *** Events

    The keys a [keydown] event may carry: [e.key] is a one-unit string for a
    printing key and a name otherwise. *)
Inductive Key := Enter | Backspace | Printing (c : N) | OtherNamed.

Record KeyboardEvent := {
  key : Key;
  targetIsInput : bool;   (* e.target instanceof HTMLInputElement *)
  ctrlKey : bool;
  metaKey : bool
}.

(** [Number(e.key)]; [None] is [NaN].  A digit gives its value, a blank
    string gives 0 and every other key gives [NaN]. *)
Definition Number_of_key (k : Key) : option Z :=
  match k with
  | Printing c =>
      if (48 <=? c) && (c <=? 57) then Some (Z.of_N c - 48)%Z
      else if isWhiteSpace c then Some 0%Z
      else None
  | _ => None
  end.

Definition isChoice (t : QType) : bool :=
  bool_decide (t = multiple_choice_one_correct)
  || bool_decide (t = multiple_choice_best_answer)
  || bool_decide (t = true_false).

(** The events of the quiz card, the reset button and the keyboard.  They
    leave the working set as it is; the three filter menus, which replace
    it, are [Page.MenuEvent]. *)
Inductive Event :=
  | ClickOption (i : nat)
  | ClickCheck
  | ClickNext
  | ClickPrev
  | ClickStar
  | ClickReset (confirmed : bool)
  | ChangeInput (value : jsstring)
  | KeyDown (e : KeyboardEvent).

Section Events.
Context {U : Unicode}.

(** [onKey], lines 241-272.  Exactly one of the three tests on [e.key]
    outside the text input can hold for a given key. *)
Definition onKey (e : KeyboardEvent) (st : State) : State :=
  match current st with
  | None => st
  | Some cur =>
      if targetIsInput e then
        match key e with
        | Enter => if negb (revealed st) then checkFill st else next st
        | _ => st
        end
      else
        match key e with
        | Enter => if revealed st then next st else st
        | Backspace => if ctrlKey e || metaKey e then prev st else st
        | k =>
            match options cur, Number_of_key k with
            | Some ops, Some n =>
                if isChoice (q_type cur) && negb (revealed st)
                   && (1 <=? n)%Z && (n <=? Z.of_nat (length ops))%Z
                then handleOptionClick (n - 1)%Z st
                else st
            | _, _ => st
            end
        end
  end.

(** The handler an event reaches, given what the render of [st] puts on
    the page (lines 373-519): the quiz card shows its controls only when
    the working set is not empty; the options are listed for a choice
    question that has options; the text input and the check button belong
    to a fill-in question, the input is disabled and the button is not
    rendered once [revealed], and the button is disabled while the input is
    blank; the next button is rendered once [revealed] and disabled at the
    last question; the previous button is disabled at the first. *)
Definition handle (ev : Event) (st : State) : State :=
  match ev with
  | KeyDown e => onKey e st
  | ClickReset confirmed =>
      if confirmed then setProgress (fun _ => emptyProgress) st else st
  | _ =>
      match current st with
      | None => st
      | Some cur =>
          match ev with
          | ClickOption i =>
              match options cur with
              | Some ops =>
                  if isChoice (q_type cur) && bool_decide (i < length ops)%nat
                  then handleOptionClick (Z.of_nat i) st
                  else st
              | None => st
              end
          | ClickCheck =>
              if bool_decide (q_type cur = fill_in_blank)
                 && negb (revealed st) && negb (isBlank (fillValue st))
              then checkFill st
              else st
          | ClickNext =>
              if revealed st && negb (total st - 1 <=? idx st)%Z
              then next st
              else st
          | ClickPrev =>
              if negb (idx st =? 0)%Z then prev st else st
          | ClickStar => setProgress (toggleStar (q_id cur)) st
          | ChangeInput value =>
              if bool_decide (q_type cur = fill_in_blank) && negb (revealed st)
              then setFillValue value st
              else st
          | _ => st
          end
      end
  end.

(** One event: the handler, then the render and its effect. *)
Definition step (st : State) (ev : Event) : State :=
  afterRender st (handle ev st).

(** The events by which the user submits an answer. *)
Definition isSubmit (ev : Event) : bool :=
  match ev with
  | ClickOption _ | ClickCheck => true
  | KeyDown e =>
      match key e with
      | Enter => targetIsInput e
      | Printing _ => negb (targetIsInput e)
      | _ => false
      end
  | _ => false
  end.
End Events.

End App.

(** ** Concrete data

    A two-question bank in the shape of the data set, the states of a short
    session on it, and a bank of fifty numbered questions. *)
Module Examples.
Import Text Bank Store Sampler App.

(** The text "Hà Nội" followed by two spaces. *)
Definition HaNoi : jsstring := [72; 224; 32; 78; 7897; 105; 32; 32].

Definition yesNo (first second : bool) : list RawOption :=
  [ {| o_id := lit "a"; o_text := lit "Dung"; is_correct := first |};
    {| o_id := lit "b"; o_text := lit "Sai"; is_correct := second |} ].

Definition rawChoice (n : Z) (opts : list RawOption) : RawQuestion :=
  {| raw_id := n; raw_type := true_false; type_description := lit "Dung/Sai";
     question := lit "Phap luat do nha nuoc ban hanh."; answer := None;
     raw_options := Some opts; raw_explanation := None |}.

Definition noFlag : RawQuestion := rawChoice 7 (yesNo false false).
Definition twoFlags : RawQuestion := rawChoice 8 (yesNo true true).

Definition rawCapital : RawQuestion :=
  {| raw_id := 2; raw_type := fill_in_blank; type_description := lit "Dien khuyet";
     question := lit "Thu do cua Viet Nam la ..."; answer := Some (take 6 HaNoi);
     raw_options := None; raw_explanation := None |}.

Definition statement : Question := processQuestion (rawChoice 1 (yesNo true false)).
Definition capital : Question := processQuestion rawCapital.

Definition noProgress : Progress := emptyProgress.

(** Question 1 answered right twice and wrong once, question 2 the other
    way round. *)
Definition snapshot : Progress :=
  {| seen := {[ lit "1" := 3%Z; lit "2" := 3%Z ]};
     wrong := {[ lit "1" := 1%Z; lit "2" := 2%Z ]};
     correct := {[ lit "1" := 2%Z; lit "2" := 1%Z ]};
     starred := ∅ |}.

Definition draws (call : nat) : nat := nth call [2; 0; 5; 1; 7; 3]%nat (call * 13 + 5)%nat.

Definition session (p : Progress) (i : Z) (input : jsstring) (shown : bool)
    (verdict : option bool) : State :=
  {| progress := p; working := [statement; capital]; idx := i;
     selected := None; fillValue := input; revealed := shown;
     isCorrect := verdict |}.

(** On the choice question, nothing answered yet. *)
Definition asking : State := session noProgress 0 [] false None.

(** On the fill-in question with "ha noi" typed, before the check. *)
Definition typing : State := session noProgress 1 (lit "ha noi") false None.

(** The same just after a successful check. *)
Definition answered : State :=
  session {| seen := {[ lit "2" := 1%Z ]}; wrong := ∅;
             correct := {[ lit "2" := 1%Z ]}; starred := ∅ |}
          1 (lit "ha noi") true (Some true).

Definition numbered (n : nat) : Question :=
  processQuestion (rawChoice (Z.of_nat n) (yesNo true false)).

Definition bank (size : nat) : list Question := numbered <$> seq 1 size.

Definition random20Shuffled : Filters :=
  {| f_type := type_all; f_mode := random20; f_shuffle := true |}.

Definition wrongOnlyShuffled : Filters :=
  {| f_type := type_all; f_mode := wrongOnly; f_shuffle := true |}.

Definition allInOrder : Filters :=
  {| f_type := type_all; f_mode := mode_all; f_shuffle := false |}.

(** A storage whose item is not JSON, and a parser that rejects it. *)
Definition brokenStorage : Storage := Items {[ LS_KEY := lit "{seen:" ]}.
Definition rejectAll (text : jsstring) : result json := Throw SyntaxError.

End Examples.

(** ** Writing and wiping the store *)
Module Persist.
Import Store.

(** [localStorage.setItem(k, v)] and [localStorage.removeItem(k)] on a
    storage that has room for the item. *)
Definition setItem (ls : Storage) (k v : jsstring) : result Storage :=
  match ls with
  | Unavailable => Throw SecurityError
  | Items items => Return (Items (<[k := v]> items))
  end.

Definition removeItem (ls : Storage) (k : jsstring) : result Storage :=
  match ls with
  | Unavailable => Throw SecurityError
  | Items items => Return (Items (delete k items))
  end.

(** The object a [Progress] value is at run time, with its four properties
    in the order in which [loadProgress] and the updaters build it. *)
Definition objectOf (p : Document) : json :=
  JObject [ (lit "seen", d_seen p); (lit "wrong", d_wrong p);
            (lit "correct", d_correct p); (lit "starred", d_starred p) ].

Section Save.
Variable JSON_stringify : json -> jsstring.

(** [saveProgress], lines 86-88. *)
Definition saveProgress (p : Document) (ls : Storage) : result Storage :=
  setItem ls LS_KEY (JSON_stringify (objectOf p)).
End Save.

(** The storage half of the reset button, line 301. *)
Definition wipe (ls : Storage) : result Storage := removeItem ls LS_KEY.

End Persist.

(** ** The figures shown in the header *)
Module Summary.
Import Bank Store App.

(** [Object.values(rec).reduce((a, b) => a + b, 0)]; the order in which the
    values come does not change a sum. *)
Definition sumValues (rec : gmap jsstring Z) : Z :=
  map_fold (fun _ b a => (a + b)%Z) 0%Z rec.

Record Stats := {
  stat_seen : Z;
  stat_correct : Z;
  stat_wrong : Z
}.

(** The [stats] memo, lines 160-165. *)
Definition stats (p : Progress) : Stats :=
  {| stat_seen := sumValues (seen p);
     stat_correct := sumValues (correct p);
     stat_wrong := sumValues (wrong p) |}.

(** [Array.from(new Set(l))]: the elements of [l] in the order of their
    first occurrence.  [have] is the set built so far. *)
Fixpoint setFrom {A} `{EqDecision A} (have : list A) (l : list A) : list A :=
  match l with
  | [] => have
  | x :: l' =>
      if decide (x ∈ have) then setFrom have l' else setFrom (have ++ [x]) l'
  end.

(** The [availableTypes] memo, lines 282-285. *)
Definition availableTypes (QUESTIONS : list Question) : list QType :=
  setFrom [] (q_type <$> QUESTIONS).

(** [QUESTIONS.filter(q => q.type === t).length], the count shown beside a
    type in the filter menu, line 334. *)
Definition countOfType (QUESTIONS : list Question) (t : QType) : nat :=
  length (filter (fun q => q_type q = t) QUESTIONS).

(** The state cells as [useState] initializes them, lines 131-138, on a
    given progress and working set. *)
Definition start (p : Progress) (ws : list Question) : State :=
  {| progress := p; working := ws; idx := 0;
     selected := None; fillValue := []; revealed := false; isCorrect := None |}.

(** Every question has been seen as often as it has been answered. *)
Definition balanced (p : Progress) : Prop :=
  forall qid, count (seen p) qid = (count (correct p) qid + count (wrong p) qid)%Z.

(** The three totals agree in the same way. *)
Definition totalsBalanced (p : Progress) : Prop :=
  stat_seen (stats p) = (stat_correct (stats p) + stat_wrong (stats p))%Z.

(** How an event can change the progress: not at all, by the reset, by one
    star, or by one grading. *)
Inductive progressStep (p : Progress) : Event -> Progress -> Prop :=
  | same_progress ev : progressStep p ev p
  | reset_progress : progressStep p (ClickReset true) emptyProgress
  | star_progress qid : progressStep p ClickStar (toggleStar qid p)
  | grade_progress ev qid (ok : bool) :
      progressStep p ev
        ((if ok then markCorrect qid else markWrong qid) (markSeen qid p)).

(** A verdict is on display exactly when the question is revealed. *)
Definition verdictShown (st : State) : Prop :=
  revealed st = true <-> is_Some (isCorrect st).

End Summary.

(** ** The filter menus and the render of the component *)
Module Page.
Import Bank Store Sampler App Summary.

#[export] Instance TypeFilter_eq_dec : EqDecision TypeFilter.
Proof. solve_decision. Defined.

#[export] Instance Filters_eq_dec : EqDecision Filters.
Proof. solve_decision. Defined.

(** The component between two events: the cells of the quiz card, with the
    value of the [filtered] memo in [working], the [filters] cell and
    [sessionKey]. *)
Record Page := {
  card : State;
  filters : Filters;
  sessionKey : Z
}.

(** The [onChange] handlers of the mode menu, the type menu and the shuffle
    checkbox, lines 318, 329 and 343. *)
Inductive MenuEvent :=
  | ChangeMode (m : Mode)
  | ChangeType (t : TypeFilter)
  | ChangeShuffle (checked : bool).

(** The updater each of them passes to [setFilters]: the object spread with
    one field replaced. *)
Definition setFilters (ev : MenuEvent) (f : Filters) : Filters :=
  match ev with
  | ChangeMode m => {| f_type := f_type f; f_mode := m; f_shuffle := f_shuffle f |}
  | ChangeType t => {| f_type := t; f_mode := f_mode f; f_shuffle := f_shuffle f |}
  | ChangeShuffle b => {| f_type := f_type f; f_mode := f_mode f; f_shuffle := b |}
  end.

(** What one computation of the [filtered] memo reads from outside the
    component: the value [loadProgress()] returns and the draws of
    [Math.random]. *)
Record Reading := {
  stored : Progress;
  random : nat -> nat
}.

(** The memo computed anew, the other cells as they are. *)
Definition setWorking (ws : list Question) (st : State) : State :=
  {| progress := progress st; working := ws; idx := idx st;
     selected := selected st; fillValue := fillValue st;
     revealed := revealed st; isCorrect := isCorrect st |}.

(** [const empty = total === 0], line 278. *)
Definition empty (st : State) : bool := (total st =? 0)%Z.

(** What a render does with [current], lines 132, 278 and 373-519: the
    card shows the empty notice when [empty]; otherwise its JSX reads
    [current.typeLabel] (line 388), then [current.id], [current.prompt] and
    others, and reading a property of [undefined] throws a [TypeError].  The
    value is the text of the type badge, [None] on the empty notice. *)
Definition render (st : State) : result (option jsstring) :=
  if empty st then Return None
  else
    match current st with
    | Some cur => Return (Some (typeLabel cur))
    | None => Throw TypeError
    end.

(** A change in one of the menus.

    [setFilters] queues a render.  When a dependency of the memo, lines
    105-129, has changed, that render computes the working set anew while
    [idx] is still what it was.  Once it is committed its effects run: the
    reset of the answer, lines 142-150, when [idx] or [current?.id] differs
    from the render before, and "Reset index when filters change", lines
    153-156, which calls [setIdx(0)] and increments [sessionKey].  The
    render these updates queue computes the memo once more, for the new
    [sessionKey], and the reset of the answer runs again when the question
    differs from the one of the first render.  A render that throws is not
    committed and none of its effects run. *)
Definition changeFilters (QUESTIONS : list Question) (first second : Reading)
    (ev : MenuEvent) (p : Page) : result Page :=
  let f := setFilters ev (filters p) in
  if decide (f = filters p) then Return p
  else
    let st1 :=
      setWorking (filtered QUESTIONS f (stored first) (random first)) (card p) in
    _ <- render st1 ;;
    let st2 :=
      setWorking (filtered QUESTIONS f (stored second) (random second))
        (setIdx 0 (afterRender (card p) st1)) in
    _ <- render st2 ;;
    Return {| card := afterRender st1 st2; filters := f;
              sessionKey := (sessionKey p + 1)%Z |}.

(** The first render and its effects, lines 90-156.  The cells have their
    initial values, [progress] the value [loadProgress()] returned; every
    effect runs after the first render, so [sessionKey] becomes 1 and the
    memo is computed a second time. *)
Definition initialFilters : Filters :=
  {| f_type := type_all; f_mode := random20; f_shuffle := true |}.

Definition mount (QUESTIONS : list Question) (loaded : Progress)
    (first second : Reading) : result Page :=
  let st1 :=
    start loaded (filtered QUESTIONS initialFilters (stored first) (random first)) in
  _ <- render st1 ;;
  let st2 :=
    setWorking (filtered QUESTIONS initialFilters (stored second) (random second))
      (setIdx 0 (resetQuestion st1)) in
  _ <- render st2 ;;
  Return {| card := afterRender st1 st2; filters := initialFilters; sessionKey := 1 |}.

(** Events of the card and the keyboard leave the filters and the memo as
    they are. *)
Definition cardEvents {U : Text.Unicode} (evs : list Event) (p : Page) : Page :=
  {| card := foldl step (card p) evs; filters := filters p;
     sessionKey := sessionKey p |}.

(** A page at rest on a working set computed for [f]. *)
Definition atRest (QUESTIONS : list Question) (f : Filters) (r : Reading)
    (st : State) (k : Z) : Page :=
  {| card := setWorking (filtered QUESTIONS f (stored r) (random r)) st;
     filters := f; sessionKey := k |}.

End Page.

(** ** JSON texts

    A printer and a parser for the JSON texts of the values a progress
    object is made of: objects, arrays, integers, booleans, [null] and
    strings in which only the quote and the backslash are escaped.  They
    stand for [JSON.stringify] and [JSON.parse] on such values; numbers with
    a fraction or an exponent and the other escapes are outside [json] and
    the parser rejects them. *)
Module JsonText.
Import Store.

Definition quote (s : jsstring) : jsstring :=
  [34] ++ flat_map (fun c => if (c =? 34) || (c =? 92) then [92; c] else [c]) s ++ [34].

Fixpoint joinWith (sep : jsstring) (parts : list jsstring) : jsstring :=
  match parts with
  | [] => []
  | [part] => part
  | part :: rest => part ++ sep ++ joinWith sep rest
  end.

Fixpoint stringify (v : json) : jsstring :=
  match v with
  | JNull => lit "null"
  | JBool b => if b then lit "true" else lit "false"
  | JNumber n => String_of_number n
  | JString s => quote s
  | JArray items => [91] ++ joinWith [44] (map stringify items) ++ [93]
  | JObject props =>
      [123]
      ++ joinWith [44] (map (fun '(k, x) => quote k ++ [58] ++ stringify x) props)
      ++ [125]
  end.

Definition isJsonSpace (c : N) : bool :=
  (c =? 32) || (c =? 9) || (c =? 10) || (c =? 13).

Definition isDigit (c : N) : bool := (48 <=? c) && (c <=? 57).

Fixpoint skipSpaces (s : jsstring) : jsstring :=
  match s with
  | c :: rest => if isJsonSpace c then skipSpaces rest else s
  | [] => []
  end.

(** The rest of [s] after [word], when [s] begins with it. *)
Definition expect (word s : jsstring) : option jsstring :=
  if bool_decide (take (length word) s = word)
  then Some (drop (length word) s) else None.

(** A string, read from behind its opening quote. *)
Fixpoint readString (s acc : jsstring) : option (jsstring * jsstring) :=
  match s with
  | [] => None
  | c :: rest =>
      if c =? 34 then Some (reverse acc, rest)
      else if c =? 92 then
        match rest with
        | e :: rest' =>
            if (e =? 34) || (e =? 92) then readString rest' (e :: acc) else None
        | [] => None
        end
      else if c <? 32 then None
      else readString rest (c :: acc)
  end.

Fixpoint readDigits (s : jsstring) (acc : Z) : Z * jsstring :=
  match s with
  | c :: rest =>
      if isDigit c then readDigits rest (10 * acc + Z.of_N (c - 48))%Z
      else (acc, s)
  | [] => (acc, [])
  end.

(** An integer without a leading zero, read from its first digit. *)
Definition readNatural (s : jsstring) : option (Z * jsstring) :=
  match s with
  | c :: rest =>
      if negb (isDigit c) then None
      else if (c =? 48) && match rest with d :: _ => isDigit d | [] => false end
      then None
      else Some (readDigits s 0%Z)
  | [] => None
  end.

Definition readNumber (s : jsstring) : option (Z * jsstring) :=
  match s with
  | c :: rest =>
      if c =? 45 then '(n, r) ← readNatural rest; Some ((- n)%Z, r)
      else readNatural s
  | [] => None
  end.

(** A value, the items of an array after its bracket, and the properties of
    an object after its brace; [fuel] bounds the number of values read. *)
Fixpoint readValue (fuel : nat) (s : jsstring) : option (json * jsstring) :=
  match fuel with
  | O => None
  | S fuel' =>
      match skipSpaces s with
      | [] => None
      | c :: rest =>
          if c =? 110 then r ← expect (lit "ull") rest; Some (JNull, r)
          else if c =? 116 then r ← expect (lit "rue") rest; Some (JBool true, r)
          else if c =? 102 then r ← expect (lit "alse") rest; Some (JBool false, r)
          else if c =? 34 then '(str, r) ← readString rest []; Some (JString str, r)
          else if c =? 91 then
            match skipSpaces rest with
            | d :: r =>
                if d =? 93 then Some (JArray [], r)
                else '(items, r') ← readItems fuel' rest []; Some (JArray items, r')
            | [] => None
            end
          else if c =? 123 then
            match skipSpaces rest with
            | d :: r =>
                if d =? 125 then Some (JObject [], r)
                else '(props, r') ← readProps fuel' rest []; Some (JObject props, r')
            | [] => None
            end
          else '(n, r) ← readNumber (c :: rest); Some (JNumber n, r)
      end
  end
with readItems (fuel : nat) (s : jsstring) (acc : list json)
  : option (list json * jsstring) :=
  match fuel with
  | O => None
  | S fuel' =>
      '(v, r) ← readValue fuel' s;
      match skipSpaces r with
      | c :: r' =>
          if c =? 44 then readItems fuel' r' (v :: acc)
          else if c =? 93 then Some (reverse (v :: acc), r')
          else None
      | [] => None
      end
  end
with readProps (fuel : nat) (s : jsstring) (acc : list (jsstring * json))
  : option (list (jsstring * json) * jsstring) :=
  match fuel with
  | O => None
  | S fuel' =>
      match skipSpaces s with
      | q :: s1 =>
          if negb (q =? 34) then None
          else
            '(k, s2) ← readString s1 [];
            match skipSpaces s2 with
            | colon :: s3 =>
                if negb (colon =? 58) then None
                else
                  '(v, r) ← readValue fuel' s3;
                  match skipSpaces r with
                  | c :: r' =>
                      if c =? 44 then readProps fuel' r' ((k, v) :: acc)
                      else if c =? 125 then Some (reverse ((k, v) :: acc), r')
                      else None
                  | [] => None
                  end
            | [] => None
            end
      | [] => None
      end
  end.

(** The whole text is one value; anything else is a [SyntaxError]. *)
Definition parse (text : jsstring) : result json :=
  match readValue (S (length text)) text with
  | Some (v, rest) =>
      match skipSpaces rest with
      | [] => Return v
      | _ :: _ => Throw SyntaxError
      end
  | None => Throw SyntaxError
  end.

End JsonText.

(** ** More concrete data *)
Module Cases.
Import Text Bank Store Sampler App Persist Summary Page Examples.

(** The Enter key pressed in the text input. *)
Definition enterInInput : KeyboardEvent :=
  {| key := Enter; targetIsInput := true; ctrlKey := false; metaKey := false |}.

(** The key of the digit [d], pressed outside the text input. *)
Definition digitKey (d : N) (ctrl meta : bool) : KeyboardEvent :=
  {| key := Printing (48 + d); targetIsInput := false;
     ctrlKey := ctrl; metaKey := meta |}.

(** A session on the question none of whose options is flagged. *)
Definition doubtful : State := start noProgress [processQuestion noFlag].

(** A fill-in entry that lacks its answer, and the session in which "?!"
    has been typed for it. *)
Definition rawNoAnswer : RawQuestion :=
  {| raw_id := 9; raw_type := fill_in_blank; type_description := lit "Dien khuyet";
     question := lit "..."; answer := None;
     raw_options := None; raw_explanation := None |}.

Definition puzzled : State :=
  setFillValue (lit "?!") (start noProgress [processQuestion rawNoAnswer]).

(** A parser for the text [null]. *)
Definition readNull (text : jsstring) : result json := Return JNull.

(** The progress of [snapshot] with a star on question 2, as the object the
    page holds at run time, and a storage in which another application
    keeps an item. *)
Definition snapshotObject : Document :=
  {| d_seen := JObject [(lit "1", JNumber 3); (lit "2", JNumber 3)];
     d_wrong := JObject [(lit "1", JNumber 1); (lit "2", JNumber 2)];
     d_correct := JObject [(lit "1", JNumber 2); (lit "2", JNumber 1)];
     d_starred := JObject [(lit "2", JBool true)] |}.

Definition otherItems : gmap jsstring jsstring := {[ lit "theme" := lit "dark" ]}.

(** A bank of three questions, the second of the fill-in kind, and what the
    memo reads on a fresh store. *)
Definition three : list Question := [statement; capital; numbered 3].

Definition fresh : Reading := {| stored := noProgress; random := draws |}.

Definition onlyFillIn : Filters :=
  {| f_type := type_only fill_in_blank; f_mode := mode_all; f_shuffle := false |}.

(** The page opened on the three questions, then set to the mode "all"
    and to bank order. *)
Definition opened : result Page :=
  p0 <- mount three noProgress fresh fresh ;;
  p1 <- changeFilters three fresh fresh (ChangeMode mode_all) p0 ;;
  changeFilters three fresh fresh (ChangeShuffle false) p1.

(** The events of a user who answers the first question and the second and
    passes on each time, and the page they lead to: the third question is
    on display. *)
Definition twoAnswered : list Event :=
  [ClickOption 0; ClickNext; ChangeInput (lit "ha noi"); ClickCheck; ClickNext].

Definition onThird : Page :=
  @cardEvents Vietnamese.table twoAnswered
    (atRest three allInOrder fresh (start noProgress []) 3).

End Cases.

(** * Properties *)

(** ** The text normalizer *)
Module TextFacts.
Import Text.

(** Case analysis on the comparisons of a code unit with literals; a branch
    whose bounds contradict each other is closed at once. *)
Ltac split_units :=
  repeat match goal with
  | |- context [N.leb ?a ?b] => destruct (N.leb_spec a b); try (exfalso; lia)
  | |- context [N.eqb ?a ?b] => destruct (N.eqb_spec a b); try (exfalso; lia)
  | H : context [N.leb ?a ?b] |- _ => destruct (N.leb_spec a b); try (exfalso; lia)
  | H : context [N.eqb ?a ?b] |- _ => destruct (N.eqb_spec a b); try (exfalso; lia)
  end; simpl in *; try congruence; try lia.

Lemma alnum_not_space c : isLowerAlnum c = true -> isWhiteSpace c = false /\ c <> 32.
Proof. unfold isLowerAlnum, isWhiteSpace. intros H. split; split_units. Qed.

Lemma plain_cases c : plain c = true -> c = 32 \/ isLowerAlnum c = true.
Proof.
  unfold plain. intros H. apply orb_true_iff in H as [H | H]; [by right |].
  left. by apply N.eqb_eq.
Qed.

Lemma plain_white c : plain c = true -> isWhiteSpace c = (c =? 32).
Proof.
  intros [-> | H]%plain_cases; [done |].
  destruct (alnum_not_space c H) as [-> Hne]. symmetry. by apply N.eqb_neq.
Qed.

Lemma plain_not_mark c : plain c = true -> isCombiningMark c = false.
Proof.
  intros [-> | H]%plain_cases; [done |].
  revert H. unfold isLowerAlnum, isCombiningMark. intros H. split_units.
Qed.

(** *** Trimming *)

Lemma trimStart_idem s : trimStart (trimStart s) = trimStart s.
Proof.
  induction s as [| c s IH]; [done |]. simpl.
  destruct (isWhiteSpace c) eqn:E; [done |]. simpl. by rewrite E.
Qed.

Lemma trimEnd_idem s : trimEnd (trimEnd s) = trimEnd s.
Proof.
  induction s as [| c s IH]; [done |]. simpl.
  destruct (trimEnd s) as [| d t] eqn:E.
  - destruct (isWhiteSpace c) eqn:W; [done |]. simpl. by rewrite W.
  - change (trimEnd (c :: d :: t)) with
      (match trimEnd (d :: t) with
       | [] => if isWhiteSpace c then [] else [c]
       | u => c :: u
       end).
    by rewrite IH.
Qed.

Lemma trimStart_snoc s c :
  trimStart (s ++ [c])
  = match trimStart s with
    | [] => if isWhiteSpace c then [] else [c]
    | t => t ++ [c]
    end.
Proof.
  induction s as [| d s IH]; [done |]. simpl.
  destruct (isWhiteSpace d); [exact IH | done].
Qed.

(** [trimEnd] removes at the end what [trimStart] removes at the start. *)
Lemma trimEnd_reverse s : trimEnd s = reverse (trimStart (reverse s)).
Proof.
  induction s as [| c s IH]; [done |].
  rewrite reverse_cons, trimStart_snoc. cbn [trimEnd]. rewrite IH.
  destruct (trimStart (reverse s)) as [| x t]; [by destruct (isWhiteSpace c) |].
  rewrite reverse_app, reverse_singleton. simpl.
  destruct (reverse (x :: t)) eqn:E; [| done].
  apply (f_equal length) in E. rewrite length_reverse in E. done.
Qed.

Lemma trimStart_shorter s : (length (trimStart s) <= length s)%nat.
Proof.
  induction s as [| d s IH]; simpl; [lia |].
  destruct (isWhiteSpace d); simpl; lia.
Qed.

Lemma trimStart_fixed_trimEnd s : trimStart s = s -> trimStart (trimEnd s) = trimEnd s.
Proof.
  destruct s as [| c s]; [done |]. simpl.
  destruct (isWhiteSpace c) eqn:W.
  - intros H. exfalso. pose proof (trimStart_shorter s) as Hle.
    rewrite H in Hle. simpl in Hle. lia.
  - intros _. destruct (trimEnd s); simpl; by rewrite W.
Qed.

Lemma trim_idem s : trim (trim s) = trim s.
Proof.
  unfold trim.
  rewrite (trimStart_fixed_trimEnd (trimStart s)) by apply trimStart_idem.
  apply trimEnd_idem.
Qed.

Lemma trimStart_plain s : forallb plain s = true -> forallb plain (trimStart s) = true.
Proof.
  induction s as [| c s IH]; [done |]. simpl. intros [Hc Hs]%andb_true_iff.
  destruct (isWhiteSpace c); [auto |]. simpl. by rewrite Hc, Hs.
Qed.

Lemma trimEnd_plain s : forallb plain s = true -> forallb plain (trimEnd s) = true.
Proof.
  induction s as [| c s IH]; [done |]. simpl. intros [Hc Hs]%andb_true_iff.
  specialize (IH Hs). destruct (trimEnd s) as [| d t].
  - destruct (isWhiteSpace c); simpl; [done | by rewrite Hc].
  - change (forallb plain (c :: d :: t)) with (plain c && forallb plain (d :: t)).
    by rewrite Hc, IH.
Qed.

Lemma squeezed_weaken b s : squeezed b s = true -> squeezed false s = true.
Proof.
  destruct s as [| c s]; [done |]. simpl.
  destruct (c =? 32); [| done]. intros [_ H]%andb_true_iff. done.
Qed.

Lemma trimStart_squeezed b s : squeezed b s = true -> squeezed false (trimStart s) = true.
Proof.
  revert b. induction s as [| c s IH]; intros b; [done |]. simpl.
  destruct (isWhiteSpace c) eqn:W.
  - destruct (c =? 32); [intros [_ H]%andb_true_iff |]; eauto.
  - intros H. apply (squeezed_weaken b). done.
Qed.

Lemma trimEnd_squeezed b s :
  forallb plain s = true -> squeezed b s = true -> squeezed b (trimEnd s) = true.
Proof.
  revert b. induction s as [| c s IH]; intros b; [done |]. simpl.
  intros [Hc Hs]%andb_true_iff H.
  destruct (trimEnd s) as [| d t] eqn:E.
  - rewrite (plain_white c Hc). destruct (c =? 32) eqn:C; [done |].
    simpl. by rewrite C.
  - change (squeezed b (c :: d :: t)) with
      (if c =? 32 then negb b && squeezed true (d :: t) else squeezed false (d :: t)).
    destruct (c =? 32).
    + apply andb_true_iff in H as [-> H]. simpl. apply (IH true Hs H).
    + apply (IH false Hs H).
Qed.

(** *** The replacements *)

Lemma blankOthers_alnumOrWhite s : forallb alnumOrWhite (blankOthers s) = true.
Proof.
  unfold blankOthers. induction s as [| c s IH]; [done |].
  rewrite fmap_cons. simpl. rewrite IH, andb_true_r.
  unfold alnumOrWhite. destruct (isLowerAlnum c || isWhiteSpace c) eqn:E; done.
Qed.

Lemma collapseFrom_canonical b s :
  forallb alnumOrWhite s = true ->
  forallb plain (collapseFrom b s) = true /\ squeezed b (collapseFrom b s) = true.
Proof.
  revert b. induction s as [| c s IH]; intros b; [done |]. simpl.
  intros [Hc Hs]%andb_true_iff.
  destruct (isWhiteSpace c) eqn:W.
  - destruct (IH true Hs) as [Hp Hq]. destruct b; [done |]. simpl. by rewrite Hp, Hq.
  - destruct (IH false Hs) as [Hp Hq].
    unfold alnumOrWhite in Hc. rewrite W, orb_false_r in Hc.
    destruct (alnum_not_space c Hc) as [_ Hne]. simpl.
    apply N.eqb_neq in Hne. rewrite Hne. unfold plain at 1. by rewrite Hc, Hp, Hq.
Qed.

Lemma stripMarks_plain s : forallb plain s = true -> stripMarks s = s.
Proof.
  unfold stripMarks. induction s as [| c s IH]; [done |]. simpl.
  intros [Hc Hs]%andb_true_iff. rewrite filter_cons.
  rewrite decide_True by by apply plain_not_mark. by rewrite IH.
Qed.

Lemma blankOthers_plain s : forallb plain s = true -> blankOthers s = s.
Proof.
  unfold blankOthers. induction s as [| c s IH]; [done |]. cbn [forallb].
  intros [Hc Hs]%andb_true_iff. rewrite fmap_cons, IH by done. f_equal.
  destruct (plain_cases c Hc) as [-> | ->]; done.
Qed.

Lemma collapseFrom_squeezed b s :
  forallb plain s = true -> squeezed b s = true -> collapseFrom b s = s.
Proof.
  revert b. induction s as [| c s IH]; intros b; [done |]. simpl.
  intros [Hc Hs]%andb_true_iff. rewrite (plain_white c Hc).
  destruct (c =? 32) eqn:C.
  - intros [Hb H]%andb_true_iff. destruct b; [done |].
    apply N.eqb_eq in C as ->. by rewrite IH.
  - intros H. by rewrite IH.
Qed.

(** *** [normalize] *)
Section NormalizeFacts.
Context {U : Unicode}.

(** Whatever the host functions do, the result of [normalize] is made of
    words over [[a-z0-9]] separated by single spaces. *)
Lemma normalize_canonical s : canonical (normalize s).
Proof.
  unfold normalize, collapseSpaces.
  set (t := blankOthers _).
  destruct (collapseFrom_canonical false t (blankOthers_alnumOrWhite _)) as [Hp Hq].
  unfold canonical, trim. repeat split.
  - by apply trimEnd_plain, trimStart_plain.
  - apply trimEnd_squeezed; [by apply trimStart_plain |].
    by apply (trimStart_squeezed false).
  - apply trim_idem.
Qed.

Lemma normalize_fixes_canonical s :
  fixesPlain toLowerCase -> fixesPlain normalizeNFD ->
  canonical s -> normalize s = s.
Proof.
  intros Hlow Hnfd (Hp & Hq & Ht). unfold normalize, collapseSpaces.
  rewrite Ht, (Hlow s Hp), (Hnfd s Hp), (stripMarks_plain s Hp),
    (blankOthers_plain s Hp), (collapseFrom_squeezed false s Hp Hq).
  done.
Qed.

(** C5: the text normalizer is idempotent, [normalize (normalize s)] equals
    [normalize s] for every string [s].  The two host functions are only
    required to leave a string over [[a-z0-9 ]] as it is, which
    [toLowerCase] and NFD normalization do. *)
Theorem normalize_idempotent :
  fixesPlain toLowerCase -> fixesPlain normalizeNFD ->
  forall s, normalize (normalize s) = normalize s.
Proof.
  intros Hlow Hnfd s.
  apply normalize_fixes_canonical; [done | done | apply normalize_canonical].
Qed.

End NormalizeFacts.
End TextFacts.

(** ** The Latin and Vietnamese table *)
Module VietnameseFacts.
Import Text TextFacts Vietnamese Examples.

Lemma lowerUnit_plain c : plain c = true -> lowerUnit c = c.
Proof.
  intros [-> | H]%plain_cases; [done |].
  revert H. unfold isLowerAlnum, lowerUnit. intros H. split_units.
Qed.

Lemma lookupUnit_below {B} (table : list (N * B)) bound c :
  forallb (fun kv => bound <=? kv.1) table = true ->
  c < bound -> lookupUnit c table = None.
Proof.
  intros Hall Hc. induction table as [| [k v] rest IH]; [done |].
  simpl in *. apply andb_true_iff in Hall as [Hk Hrest].
  apply N.leb_le in Hk. destruct (N.eqb_spec c k); [lia | auto].
Qed.

Lemma decompose_plain c : plain c = true -> decompose 2 c = [c].
Proof.
  intros H. cbn [decompose].
  rewrite (lookupUnit_below decomposition 0xC0); [done | by vm_compute |].
  destruct (plain_cases c H) as [-> | Ha]; [done |].
  revert Ha. unfold isLowerAlnum. intros Ha. split_units.
Qed.

Lemma toLowerCase_fixesPlain : fixesPlain (@toLowerCase table).
Proof.
  intros s. change (forallb plain s = true -> lowerUnit <$> s = s).
  induction s as [| c s IH]; [done |]. cbn [forallb].
  intros [Hc Hs]%andb_true_iff. rewrite fmap_cons, IH by done.
  by rewrite lowerUnit_plain.
Qed.

Lemma normalizeNFD_fixesPlain : fixesPlain (@normalizeNFD table).
Proof.
  intros s. change (forallb plain s = true -> s ≫= decompose 2 = s).
  induction s as [| c s IH]; [done |]. cbn [forallb].
  intros [Hc Hs]%andb_true_iff. rewrite bind_cons, IH by done.
  by rewrite decompose_plain.
Qed.

Example normalize_HaNoi : normalize HaNoi = lit "ha noi".
Proof. vm_compute. reflexivity. Qed.

Example normalize_ha_noi : normalize (lit "ha noi") = lit "ha noi".
Proof. vm_compute. reflexivity. Qed.

Example normalize_punctuation : normalize (lit "  A,b   C!! ") = lit "a b c".
Proof. vm_compute. reflexivity. Qed.

Lemma normalize_idempotent_witness :
  normalize (normalize HaNoi) = normalize HaNoi.
Proof.
  apply (@normalize_idempotent table).
  - exact toLowerCase_fixesPlain.
  - exact normalizeNFD_fixesPlain.
Defined.

End VietnameseFacts.

(** ** The question bank loader *)
Module BankFacts.
Import Bank Examples.

Lemma findIndexFrom_none {A} (p : A -> bool) from (l : list A) :
  Forall (fun x => p x = false) l -> findIndexFrom p from l = (-1)%Z.
Proof.
  intros H. revert from. induction H as [| x l Hx _ IH]; intros from; [done |].
  simpl. by rewrite Hx.
Qed.

Lemma findIndexFrom_first {A} (p : A -> bool) from (l : list A) :
  Exists (fun x => p x = true) l ->
  exists i x, findIndexFrom p from l = (from + Z.of_nat i)%Z
    /\ l !! i = Some x /\ p x = true
    /\ forall j y, (j < i)%nat -> l !! j = Some y -> p y = false.
Proof.
  revert from. induction l as [| a l IH]; intros from H; [by inversion H |].
  simpl. destruct (p a) eqn:Pa.
  - exists 0%nat, a. repeat split; [f_equal; lia | done | intros; lia].
  - inversion H as [? ? Ha | ? ? Hl]; subst; [congruence |].
    destruct (IH (from + 1)%Z Hl) as (i & x & Hres & Hx & Px & Hbefore).
    exists (S i), x. repeat split; [rewrite Hres; lia | done | done |].
    intros [| j] y Hj Hy; simpl in Hy; [congruence |].
    apply (Hbefore j y); [lia | done].
Qed.

Lemma flagged_zero opts :
  flagged opts = 0%nat -> Forall (fun o => is_correct o = false) opts.
Proof.
  unfold flagged. induction opts as [| o opts IH]; [constructor |].
  rewrite filter_cons. destruct (decide (is_correct o = true)) as [Ho | Ho]; simpl; [done |].
  intros H. constructor; [by destruct (is_correct o) | auto].
Qed.

Lemma flagged_pos opts :
  (1 <= flagged opts)%nat -> Exists (fun o => is_correct o = true) opts.
Proof.
  unfold flagged. induction opts as [| o opts IH]; simpl; [lia |].
  rewrite filter_cons. destruct (decide (is_correct o = true)) as [Ho | Ho]; simpl.
  - intros _. by left.
  - intros H. right. auto.
Qed.

(** C2 as stated fails.  The loader is a total function, no entry makes it
    fail; this one is a choice question none of whose options is flagged, and
    it is loaded
    with [correctIndex = -1], outside [0 <= correctIndex < len(options)]. *)
Lemma processQuestion_no_flag_out_of_range :
  raw_type noFlag <> fill_in_blank
  /\ raw_options noFlag = Some (yesNo false false)
  /\ flagged (yesNo false false) = 0%nat
  /\ options (processQuestion noFlag) = Some [lit "Dung"; lit "Sai"]
  /\ correctIndex (processQuestion noFlag) = Some (-1)%Z
  /\ ~ correctIndexInRange (processQuestion noFlag).
Proof.
  split; [done |]. do 4 (split; [reflexivity |]).
  change (~ (0 <= -1 < 2)%Z). lia.
Qed.

(** C2, amended: for every raw choice entry that has an options list the
    loader never fails and keeps the options in source order; when one or
    more options are flagged correct, [correctIndex] is the index of the
    first flagged option, so [0 <= correctIndex < len(options)] holds; when
    none is flagged, [correctIndex] is [-1]. *)
Theorem processQuestion_correctIndex (q : RawQuestion) (opts : list RawOption) :
  raw_type q <> fill_in_blank ->
  raw_options q = Some opts ->
  options (processQuestion q) = Some (o_text <$> opts)
  /\ (flagged opts = 0%nat -> correctIndex (processQuestion q) = Some (-1)%Z)
  /\ ((1 <= flagged opts)%nat ->
      correctIndexInRange (processQuestion q)
      /\ exists i o,
           correctIndex (processQuestion q) = Some (Z.of_nat i)
           /\ opts !! i = Some o /\ is_correct o = true
           /\ forall j o', (j < i)%nat -> opts !! j = Some o' -> is_correct o' = false).
Proof.
  intros Hty Hopts. unfold processQuestion.
  rewrite decide_False by done. rewrite Hopts. cbn [options correctIndex].
  split; [done |]. split.
  - intros H0. unfold findIndex. by rewrite findIndexFrom_none by by apply flagged_zero.
  - intros H1. apply flagged_pos in H1.
    destruct (findIndexFrom_first is_correct 0%Z opts H1) as (i & o & Hres & Ho & Po & Hb).
    unfold findIndex. rewrite Hres, Z.add_0_l. split.
    + unfold correctIndexInRange. cbn [options correctIndex].
      rewrite length_fmap. apply lookup_lt_Some in Ho. lia.
    + exists i, o. done.
Qed.

Lemma processQuestion_correctIndex_witness :
  flagged (yesNo true true) = 2%nat
  /\ correctIndexInRange (processQuestion twoFlags)
  /\ correctIndex (processQuestion twoFlags) = Some 0%Z.
Proof.
  split; [reflexivity |].
  destruct (processQuestion_correctIndex twoFlags (yesNo true true))
    as (_ & _ & H); [done | reflexivity |].
  destruct H as [Hin _]; [vm_compute; lia |].
  split; [exact Hin | reflexivity].
Defined.

End BankFacts.

(** ** The progress store *)
Module StoreFacts.
Import Store Examples.

(** C9: loading the persisted progress never fails.  For every storage and
    every behaviour of [JSON.parse], [loadProgress] returns a document:
    the one its [try] block returns, or the empty one when the block
    throws; and when the data is missing or corrupt (storage unreadable,
    item absent or empty, text not parseable) it returns the empty store,
    all four maps empty. *)
Theorem loadProgress_never_fails (JSON_parse : jsstring -> result json) (ls : Storage) :
  (loadProgress_try JSON_parse ls = Return (loadProgress JSON_parse ls)
   \/ (exists e, loadProgress_try JSON_parse ls = Throw e)
      /\ loadProgress JSON_parse ls = emptyDocument)
  /\ (missingOrCorrupt JSON_parse ls -> loadProgress JSON_parse ls = emptyDocument)
  /\ emptyDocument
     = {| d_seen := JObject []; d_wrong := JObject [];
          d_correct := JObject []; d_starred := JObject [] |}.
Proof.
  unfold loadProgress, missingOrCorrupt, tryCatch. split; [| split; [| done]].
  - destruct (loadProgress_try JSON_parse ls) as [d | e]; eauto.
  - unfold loadProgress_try.
    destruct (getItem ls LS_KEY) as [[[| c text] |] | e]; simpl; try done.
    intros [e ->]. done.
Qed.

Lemma loadProgress_never_fails_witness :
  loadProgress rejectAll brokenStorage = emptyDocument.
Proof.
  destruct (loadProgress_never_fails rejectAll brokenStorage) as (_ & H & _).
  apply H. unfold missingOrCorrupt, brokenStorage, getItem.
  rewrite lookup_singleton_eq. exists SyntaxError. reflexivity.
Defined.

(** A parseable document of another shape is not an error either: the JSON
    text [null] makes the property read throw, any other value that is not
    an object has none of the four properties. *)
Lemma loadProgress_other_shapes (JSON_parse : jsstring -> result json) items text v :
  items !! LS_KEY = Some text -> text <> [] ->
  JSON_parse text = Return v ->
  (forall props, v <> JObject props) ->
  loadProgress JSON_parse (Items items) = emptyDocument.
Proof.
  intros Hitem Htext Hparse Hshape.
  unfold loadProgress, loadProgress_try, getItem. rewrite Hitem. simpl.
  destruct text as [| c text]; [done |]. rewrite Hparse. simpl.
  destruct v; try done. by destruct (Hshape props).
Qed.

End StoreFacts.

(** ** The sampler *)
Module SamplerFacts.
Import Bank Store Sampler Examples.

Section Shuffle.
Context {A : Type}.
Implicit Types (a l : list A) (i j : nat).

Lemma insert_perm_cons l j x y :
  l !! j = Some y -> y :: <[j := x]> l ≡ₚ x :: l.
Proof.
  revert j. induction l as [| z l IH]; intros [| j] H; simplify_eq/=.
  - apply Permutation_swap.
  - rewrite (Permutation_swap z y), (IH j H). apply Permutation_swap.
Qed.

Lemma swap_perm a i j : swap a i j ≡ₚ a.
Proof.
  unfold swap.
  destruct (a !! i) as [ai |] eqn:Hi; [| done].
  destruct (a !! j) as [aj |] eqn:Hj; [| done].
  revert i j Hi Hj. induction a as [| z a IH]; intros [| i] [| j] Hi Hj;
    simplify_eq/=; [done | | | ].
  - by apply insert_perm_cons.
  - by apply insert_perm_cons.
  - by rewrite IH.
Qed.

(** In [shuffle] both indices of every exchange are inside the array. *)
Lemma shuffle_indices_in_range (random : nat -> nat) call i a :
  (i < length a)%nat ->
  is_Some (a !! i) /\ is_Some (a !! (random call `mod` (i + 1))%nat).
Proof.
  intros Hi. split; apply lookup_lt_is_Some.
  - done.
  - pose proof (Nat.mod_upper_bound (random call) (i + 1)). lia.
Qed.

Lemma shuffleLoop_perm random call i a : shuffleLoop random call i a ≡ₚ a.
Proof.
  revert call a. induction i as [| i IH]; intros call a; [done |].
  cbn [shuffleLoop]. rewrite IH. apply swap_perm.
Qed.

Lemma shuffle_perm random a : shuffle random a ≡ₚ a.
Proof. apply shuffleLoop_perm. Qed.

End Shuffle.

Example shuffle_four : shuffle draws [10; 20; 30; 40] = [40; 20; 10; 30].
Proof. vm_compute. reflexivity. Qed.

Lemma submseteq_NoDup {A} (l k : list A) : l ⊆+ k -> NoDup k -> NoDup l.
Proof.
  intros [k' Hk]%submseteq_Permutation. rewrite Hk, NoDup_app. tauto.
Qed.

(** The first step of the memo is the type filter. *)
Lemma type_step f (QUESTIONS : list Question) :
  match f with
  | type_all => QUESTIONS
  | type_only t => filter (fun q => q_type q = t) QUESTIONS
  end = ofType f QUESTIONS.
Proof.
  unfold ofType. destruct f as [| t]; simpl.
  - induction QUESTIONS as [| q l IH]; [done |].
    rewrite filter_cons_True by done. by rewrite <- IH.
  - apply list_filter_iff. intros q. by rewrite bool_decide_eq_true.
Qed.

Lemma shuffle_step {A} (on : bool) random (l : list A) :
  (if on then shuffle random l else l) ≡ₚ l.
Proof. destruct on; [apply shuffle_perm | done]. Qed.

Lemma missedMore_spec currentProgress q :
  missedMore currentProgress q = true <->
  (count (correct currentProgress) (q_id q) < count (wrong currentProgress) (q_id q))%Z.
Proof. unfold missedMore. apply Z.ltb_lt. Qed.

(** C3: for every question bank, every filter configuration with mode
    WrongOnly and every progress snapshot, the working set holds exactly the
    type-matching questions whose wrong count is strictly greater than their
    correct count in the snapshot, a missing entry counting as zero (it is a
    permutation of that selection); every question whose correct count is at
    least its wrong count is excluded. *)
Theorem filtered_wrongOnly (QUESTIONS : list Question) (filters : Filters)
    (currentProgress : Progress) (random : nat -> nat) :
  f_mode filters = wrongOnly ->
  let workingSet := filtered QUESTIONS filters currentProgress random in
  let wrongs q := count (wrong currentProgress) (q_id q) in
  let corrects q := count (correct currentProgress) (q_id q) in
  workingSet ≡ₚ
    filter (fun q => (corrects q < wrongs q)%Z) (ofType (f_type filters) QUESTIONS)
  /\ (forall q, q ∈ workingSet <->
        q ∈ QUESTIONS /\ typeMatches (f_type filters) q = true
        /\ (wrongs q > corrects q)%Z)
  /\ (forall q, (corrects q >= wrongs q)%Z -> q ∉ workingSet).
Proof.
  intros Hmode workingSet wrongs corrects.
  assert (workingSet ≡ₚ
    filter (fun q => (corrects q < wrongs q)%Z)
           (ofType (f_type filters) QUESTIONS)) as Hperm.
  { unfold workingSet, filtered. rewrite type_step, Hmode.
    destruct (decide (wrongOnly = wrongOnly)) as [_ | ?]; [| done].
    destruct (decide (wrongOnly = random20)) as [? | _]; [done |].
    rewrite shuffle_step. apply reflexive_eq, list_filter_iff.
    intros q. apply missedMore_spec. }
  assert (forall q, q ∈ workingSet <->
            q ∈ QUESTIONS /\ typeMatches (f_type filters) q = true
            /\ (wrongs q > corrects q)%Z) as Hmem.
  { intros q. rewrite Hperm. unfold ofType. rewrite !list_elem_of_filter.
    split; [intros (? & ? & ?) | intros (? & ? & ?)]; repeat split; auto; lia. }
  split; [exact Hperm |]. split; [exact Hmem |].
  intros q Hge Hin. apply Hmem in Hin as (_ & _ & Hgt). lia.
Qed.

Lemma filtered_wrongOnly_witness :
  capital ∈ filtered [statement; capital] wrongOnlyShuffled snapshot draws
  /\ statement ∉ filtered [statement; capital] wrongOnlyShuffled snapshot draws.
Proof.
  destruct (filtered_wrongOnly [statement; capital] wrongOnlyShuffled snapshot draws)
    as (_ & Hmem & Hout); [reflexivity |].
  split.
  - apply Hmem. split; [right; left |]. split; [reflexivity | vm_compute; reflexivity].
  - apply Hout. vm_compute. discriminate.
Defined.

(** C7: for every question bank and every filter configuration with mode
    Random20 the sampler returns exactly [min(20, n)] questions, [n] being
    the length of the type-filtered list, and returns no question more often
    than the filtered list holds it; in a bank whose ids are unique, as the
    data model has it, the returned questions are pairwise distinct.  A
    filtered list of 50 gives exactly 20 questions, one of 5 gives 5. *)
Theorem filtered_random20 (QUESTIONS : list Question) (filters : Filters)
    (currentProgress : Progress) (random : nat -> nat) :
  f_mode filters = random20 ->
  let pool := ofType (f_type filters) QUESTIONS in
  let workingSet := filtered QUESTIONS filters currentProgress random in
  length workingSet = Nat.min 20 (length pool)
  /\ workingSet ⊆+ pool
  /\ (NoDup (q_id <$> QUESTIONS) ->
      NoDup (q_id <$> workingSet) /\ NoDup workingSet)
  /\ (length pool = 50%nat -> length workingSet = 20%nat)
  /\ (length pool = 5%nat -> length workingSet = 5%nat).
Proof.
  intros Hmode pool workingSet.
  assert (exists l, l ≡ₚ pool /\ workingSet = first20 l) as (l & Hl & ->).
  { unfold workingSet, filtered. rewrite type_step, Hmode.
    destruct (decide (random20 = wrongOnly)) as [? | _]; [done |].
    destruct (decide (random20 = random20)) as [_ | ?]; [| done].
    eexists. split; [apply shuffle_step | done]. }
  assert (length (first20 l) = Nat.min 20 (length pool)) as Hlen.
  { unfold first20. rewrite length_take, <- (Permutation_length Hl). lia. }
  assert (first20 l ⊆+ pool) as Hsub.
  { rewrite <- Hl. apply sublist_submseteq, sublist_take. }
  split; [exact Hlen |]. split; [exact Hsub |]. split; [| lia].
  intros Hids.
  assert (NoDup (q_id <$> first20 l)) as Hres.
  { apply (submseteq_NoDup _ (q_id <$> QUESTIONS)); [| done].
    apply fmap_submseteq. rewrite Hsub. apply sublist_submseteq, sublist_filter. }
  split; [exact Hres | by apply NoDup_fmap_1 in Hres].
Qed.

Lemma filtered_random20_witness :
  length (filtered (bank 50) random20Shuffled noProgress draws) = 20%nat
  /\ NoDup (q_id <$> filtered (bank 50) random20Shuffled noProgress draws)
  /\ length (filtered (bank 5) random20Shuffled noProgress draws) = 5%nat.
Proof.
  destruct (filtered_random20 (bank 50) random20Shuffled noProgress draws)
    as (_ & _ & Hdistinct & H50 & _); [reflexivity |].
  destruct (filtered_random20 (bank 5) random20Shuffled noProgress draws)
    as (_ & _ & _ & _ & H5); [reflexivity |].
  split; [apply H50; vm_compute; reflexivity |].
  split; [| apply H5; vm_compute; reflexivity].
  apply Hdistinct. apply (bool_decide_unpack _). vm_compute. exact I.
Defined.

End SamplerFacts.

(** ** The handlers of the component *)
Module AppFacts.
Import Text Bank Store Sampler App Examples.

Create HintDb handlers discriminated.

Lemma count_insert_eq (rec : gmap (list N) Z) qid v : count (<[qid := v]> rec) qid = v.
Proof. unfold count. by rewrite lookup_insert_eq. Qed.

(** The counters of the graded question after [grade]. *)
Lemma grade_counts qid ok sel st :
  let st' := grade qid ok sel st in
  seenCount st' qid = (seenCount st qid + 1)%Z
  /\ correctCount st' qid = (if ok then correctCount st qid + 1 else correctCount st qid)%Z
  /\ wrongCount st' qid = (if ok then wrongCount st qid else wrongCount st qid + 1)%Z.
Proof.
  unfold seenCount, correctCount, wrongCount, grade.
  destruct ok; simpl; rewrite !count_insert_eq; done.
Qed.

Lemma framed_refl st : framed st st.
Proof. by split. Qed.

Lemma grade_framed qid ok sel st :
  q_id <$> current st = Some qid -> framed st (grade qid ok sel st).
Proof.
  intros Hcur. unfold framed. rewrite Hcur. split; [by destruct ok |].
  intros qid' Hne. assert (qid <> qid') by congruence.
  destruct ok; simpl; rewrite ?lookup_insert_ne by done; done.
Qed.

Lemma moved_refl st : moved st st.
Proof. split; auto. Qed.

Lemma grade_moved qid ok sel st : moved st (grade qid ok sel st).
Proof. split; auto. Qed.

Lemma next_moved st : moved st (next st).
Proof.
  unfold next. destruct (Z.ltb_spec (idx st) (total st - 1)).
  - split; [done |]. right. left. simpl. lia.
  - apply moved_refl.
Qed.

Lemma prev_moved st : moved st (prev st).
Proof.
  unfold prev. destruct (Z.ltb_spec 0 (idx st)).
  - split; [done |]. right. right. simpl. lia.
  - apply moved_refl.
Qed.

Lemma handleOptionClick_moved optIdx st : moved st (handleOptionClick optIdx st).
Proof.
  unfold handleOptionClick. repeat case_match; auto using moved_refl, grade_moved.
Qed.

Lemma handleOptionClick_graded optIdx st cur :
  revealed st = false -> current st = Some cur ->
  handleOptionClick optIdx st
  = grade (q_id cur) (isCorrectOption optIdx cur) (Some optIdx) st.
Proof. intros Hrev Hcur. unfold handleOptionClick. by rewrite Hrev, Hcur. Qed.

Lemma handleOptionClick_revealed optIdx st :
  revealed st = true -> handleOptionClick optIdx st = st.
Proof. intros Hrev. unfold handleOptionClick. by rewrite Hrev. Qed.

Lemma next_last st : (idx st = total st - 1)%Z -> next st = st.
Proof. intros H. unfold next. rewrite (proj2 (Z.ltb_ge _ _)); [done | lia]. Qed.

Lemma prev_first st : idx st = 0%Z -> prev st = st.
Proof. intros H. unfold prev. by rewrite H. Qed.

Lemma progress_next st : progress (next st) = progress st.
Proof. unfold next. by destruct (_ <? _)%Z. Qed.

Lemma afterRender_same st : afterRender st st = st.
Proof.
  unfold afterRender, questionChanged.
  by rewrite Z.eqb_refl, bool_decide_eq_true_2.
Qed.

Lemma afterRender_moved before after :
  moved before after -> moved before (afterRender before after).
Proof. unfold afterRender. by destruct (questionChanged before after). Qed.

Lemma progress_afterRender before after :
  progress (afterRender before after) = progress after.
Proof. unfold afterRender. by destruct (questionChanged before after). Qed.

Lemma moved_inRange st st' : moved st st' -> inRange st -> inRange st'.
Proof. unfold moved, inRange, total. intros [-> H] Hin. lia. Qed.

#[local] Hint Resolve moved_refl grade_moved next_moved prev_moved
  handleOptionClick_moved : handlers.

Section WithUnicode.
Context {U : Unicode}.

Lemma checkFill_graded st cur :
  current st = Some cur -> q_type cur = fill_in_blank ->
  isBlank (fillValue st) = false ->
  checkFill st = grade (q_id cur) (isCorrectText (fillValue st) cur) (selected st) st.
Proof.
  intros Hcur Hty Hblank. unfold checkFill. rewrite Hcur, Hblank.
  by rewrite bool_decide_eq_true_2.
Qed.

Lemma checkFill_moved st : moved st (checkFill st).
Proof. unfold checkFill. repeat case_match; auto with handlers. Qed.

Lemma onKey_moved e st : moved st (onKey e st).
Proof.
  unfold onKey. pose proof (checkFill_moved st).
  repeat case_match; auto with handlers.
Qed.

Lemma handle_moved ev st : moved st (handle ev st).
Proof.
  unfold handle. pose proof (checkFill_moved st).
  repeat case_match; auto using onKey_moved with handlers; split; auto.
Qed.

Lemma step_moved st ev : moved st (step st ev).
Proof. apply afterRender_moved, handle_moved. Qed.

Lemma run_inRange evs st : inRange st -> inRange (foldl step st evs).
Proof.
  revert st. induction evs as [| ev evs IH]; intros st Hin; [done |].
  simpl. apply IH. eapply moved_inRange; [apply step_moved | done].
Qed.

Lemma step_ClickNext_last st : (idx st = total st - 1)%Z -> step st ClickNext = st.
Proof.
  intros H. unfold step, handle. rewrite (next_last st H).
  repeat case_match; apply afterRender_same.
Qed.

Lemma step_ClickPrev_first st : idx st = 0%Z -> step st ClickPrev = st.
Proof.
  intros H. unfold step, handle. rewrite (prev_first st H).
  repeat case_match; apply afterRender_same.
Qed.

Lemma checkFill_verdict st cur :
  current st = Some cur -> q_type cur = fill_in_blank ->
  isBlank (fillValue st) = false ->
  isCorrect (checkFill st) = Some true
  <-> normalize (fillValue st) = normalize (default [] (correctAnswer cur)).
Proof.
  intros Hcur Hty Hblank. rewrite (checkFill_graded st cur) by done.
  cbn [grade isCorrect]. unfold isCorrectText.
  split; [intros [= H] | intros H; f_equal].
  - by apply bool_decide_eq_true in H.
  - by apply bool_decide_eq_true.
Qed.


(** C4: for every choice question in state Answering ([revealed = false]),
    submitting the option index equal to [correctIndex] increments that
    question's correct count by exactly 1 and its seen count by exactly 1
    and leaves its wrong count unchanged; every submission, by an option
    click in state Answering or by a fill-in check that passes its guard,
    increments the seen count exactly once and exactly one of the correct
    and wrong counts. *)
Theorem submission_counts (st : State) (cur : Question) :
  current st = Some cur ->
  let q := q_id cur in
  let gradedOnce (st' : State) :=
    seenCount st' q = (seenCount st q + 1)%Z
    /\ ((correctCount st' q = (correctCount st q + 1)%Z
         /\ wrongCount st' q = wrongCount st q)
        \/ (wrongCount st' q = (wrongCount st q + 1)%Z
            /\ correctCount st' q = correctCount st q)) in
  (forall optIdx, revealed st = false ->
     gradedOnce (handleOptionClick optIdx st)
     /\ (correctIndex cur = Some optIdx ->
         seenCount (handleOptionClick optIdx st) q = (seenCount st q + 1)%Z
         /\ correctCount (handleOptionClick optIdx st) q = (correctCount st q + 1)%Z
         /\ wrongCount (handleOptionClick optIdx st) q = wrongCount st q))
  /\ (q_type cur = fill_in_blank -> isBlank (fillValue st) = false ->
      gradedOnce (checkFill st)).
Proof.
  intros Hcur q gradedOnce. split.
  - intros optIdx Hrev. rewrite (handleOptionClick_graded _ _ cur) by done.
    destruct (grade_counts q (isCorrectOption optIdx cur) (Some optIdx) st)
      as (Hs & Hc & Hw).
    split.
    + split; [exact Hs |]. destruct (isCorrectOption optIdx cur); auto.
    + intros Hidx.
      assert (isCorrectOption optIdx cur = true) as Hok.
      { unfold isCorrectOption. rewrite Hidx. apply Z.eqb_refl. }
      rewrite Hok in Hs, Hc, Hw |- *. done.
  - intros Hty Hblank. rewrite (checkFill_graded _ cur) by done.
    destruct (grade_counts q (isCorrectText (fillValue st) cur) (selected st) st)
      as (Hs & Hc & Hw).
    split; [exact Hs |]. destruct (isCorrectText (fillValue st) cur); auto.
Qed.

(** C6: a fill-in-blank submission is graded correct if and only if the
    normalized form of the typed input equals the normalized form of the
    question's [correctAnswer] (the empty string when the question has
    none), and then it is the correct count that goes up, otherwise the
    wrong count; on the Latin and Vietnamese table, [normalize] maps both
    "Hà Nội" followed by two spaces and "ha noi" to "ha noi". *)
Theorem checkFill_grading (st : State) (cur : Question) :
  current st = Some cur -> q_type cur = fill_in_blank ->
  isBlank (fillValue st) = false ->
  let expected := default [] (correctAnswer cur) in
  let same := normalize (fillValue st) = normalize expected in
  (isCorrect (checkFill st) = Some true <-> same)
  /\ (isCorrect (checkFill st) = Some false <-> ~ same)
  /\ (correctCount (checkFill st) (q_id cur) = (correctCount st (q_id cur) + 1)%Z
      <-> same)
  /\ (wrongCount (checkFill st) (q_id cur) = (wrongCount st (q_id cur) + 1)%Z
      <-> ~ same)
  /\ revealed (checkFill st) = true
  /\ (forall a, correctAnswer cur = Some a -> expected = a)
  /\ @normalize Vietnamese.table HaNoi = lit "ha noi"
  /\ @normalize Vietnamese.table (lit "ha noi") = lit "ha noi".
Proof.
  intros Hcur Hty Hblank expected same.
  pose proof (checkFill_verdict st cur Hcur Hty Hblank) as Hverdict.
  fold expected in Hverdict. fold same in Hverdict.
  assert (checkFill st = grade (q_id cur) (bool_decide same) (selected st) st) as Hgrade.
  { by rewrite (checkFill_graded st cur). }
  destruct (grade_counts (q_id cur) (bool_decide same) (selected st) st)
    as (_ & Hc & Hw).
  rewrite <- Hgrade in Hc, Hw.
  split; [exact Hverdict |]. split.
  { rewrite Hgrade. cbn [grade isCorrect]. split.
    - intros [= H]. by apply bool_decide_eq_false in H.
    - intros H. f_equal. by apply bool_decide_eq_false. }
  split.
  { rewrite Hc. destruct (bool_decide_reflect same) as [Hs | Hs].
    - tauto.
    - split; [lia | tauto]. }
  split.
  { rewrite Hw. destruct (bool_decide_reflect same) as [Hs | Hs].
    - split; [lia | tauto].
    - tauto. }
  split; [by rewrite Hgrade |].
  split; [by intros a Ha; unfold expected; rewrite Ha |].
  split; vm_compute; reflexivity.
Qed.

(** C10: grading is framed to the current question.  An option click and a
    fill-in check leave the seen, correct and wrong entries of every
    question id other than the current one, and the starred flag of every
    question id, as they were. *)
Theorem grading_framed (st : State) :
  (forall optIdx, framed st (handleOptionClick optIdx st))
  /\ framed st (checkFill st).
Proof.
  split.
  - intros optIdx. unfold handleOptionClick.
    destruct (revealed st); [apply framed_refl |].
    destruct (current st) as [cur |] eqn:Hcur; [| apply framed_refl].
    apply grade_framed. by rewrite Hcur.
  - unfold checkFill.
    destruct (current st) as [cur |] eqn:Hcur; [| apply framed_refl].
    destruct (negb _); [apply framed_refl |].
    destruct (isBlank _); [apply framed_refl |].
    apply grade_framed. by rewrite Hcur.
Qed.

(** X28: navigation on a working set that stays as it is.  The advance
    action at the last position and the retreat action at position 0 leave
    the position (indeed the whole state) unchanged, as handlers and as
    button clicks; and a position inside the working set,
    [0 <= position < len(WorkingSet)], stays inside it under [next], under
    [prev] and along every sequence of events of the card and the keyboard.
    A change in a filter menu is not such an event: it replaces the working
    set, see [Page.changeFilters]. *)
Theorem navigation_bounds (st : State) :
  (idx st = total st - 1 ->
     idx (next st) = idx st /\ step st ClickNext = st)%Z
  /\ (idx st = 0 ->
       idx (prev st) = idx st /\ step st ClickPrev = st)%Z
  /\ (inRange st ->
       working st <> []
       /\ inRange (next st) /\ inRange (prev st)
       /\ forall evs, inRange (foldl step st evs)).
Proof.
  split; [| split].
  - intros Hlast. by rewrite next_last, step_ClickNext_last.
  - intros Hfirst. by rewrite prev_first, step_ClickPrev_first.
  - intros Hin. split; [| split; [| split]].
    + unfold inRange, total in Hin. destruct (working st); [simpl in Hin; lia | done].
    + eapply moved_inRange; [apply next_moved | done].
    + eapply moved_inRange; [apply prev_moved | done].
    + intros evs. by apply run_inRange.
Qed.

(** C1: submission is idempotent once revealed.  In every session state
    with [revealed = true] a repeated option click and a repeated fill-in
    check leave the state as it is, and every submit event, the option
    click, the check button, Enter in the text input and the quick-select
    keys, leaves the seen, correct and wrong counts of every question
    unchanged; so does every other event but the confirmed reset. *)
Theorem resubmit_when_revealed (st : State) :
  revealed st = true ->
  (forall optIdx, handleOptionClick optIdx st = st)
  /\ (forall i, step st (ClickOption i) = st)
  /\ step st ClickCheck = st
  /\ (forall ev, isSubmit ev = true ->
        progress (step st ev) = progress st /\ sameCounters st (step st ev))
  /\ (forall ev, ev <> ClickReset true -> sameCounters st (step st ev)).
Proof.
  intros Hrev.
  assert (forall optIdx, handleOptionClick optIdx st = st) as Hclick
    by (intros; by apply handleOptionClick_revealed).
  assert (forall ev, ev <> ClickReset true -> ev <> ClickStar ->
            progress (step st ev) = progress st) as Hkept.
  { intros ev Hreset Hstar. unfold step. rewrite progress_afterRender.
    destruct ev as [i | | | | | c | v | e]; try done.
    - unfold handle. rewrite Hclick. by repeat case_match.
    - unfold handle. destruct (current st) as [cur |]; [| done].
      rewrite Hrev. cbn [negb]. by rewrite andb_false_r.
    - unfold handle. repeat case_match; auto using progress_next.
    - unfold handle. repeat case_match; try done. unfold prev.
      by destruct (_ <? _)%Z.
    - by destruct c.
    - unfold handle. destruct (current st) as [cur |]; [| done].
      rewrite Hrev. cbn [negb]. by rewrite andb_false_r.
    - unfold handle, onKey. rewrite Hrev, ?Hclick. cbn [negb].
      repeat case_match; auto using progress_next;
        rewrite ?andb_false_r in *; try done.
      unfold prev. by destruct (_ <? _)%Z. }
  split; [exact Hclick |]. split.
  { intros i. unfold step, handle. rewrite Hclick.
    repeat case_match; apply afterRender_same. }
  split.
  { unfold step, handle. destruct (current st) as [cur |].
    - rewrite Hrev. cbn [negb]. rewrite andb_false_r. apply afterRender_same.
    - apply afterRender_same. }
  split.
  { intros ev Hev.
    assert (progress (step st ev) = progress st) as Hp.
    { apply Hkept; intros ->; discriminate Hev. }
    split; [exact Hp |]. unfold sameCounters. by rewrite Hp. }
  intros ev Hreset. unfold sameCounters.
  destruct ev; try (by rewrite Hkept).
  unfold step. rewrite progress_afterRender.
  unfold handle. by destruct (current st).
Qed.

End WithUnicode.

(** *** The handlers on the concrete session *)

Lemma submission_counts_witness :
  seenCount (handleOptionClick 0 asking) (lit "1") = 1%Z
  /\ correctCount (handleOptionClick 0 asking) (lit "1") = 1%Z
  /\ wrongCount (handleOptionClick 0 asking) (lit "1") = 0%Z.
Proof.
  destruct (@submission_counts Vietnamese.table asking statement) as [Hclick _];
    [reflexivity |].
  destruct (Hclick 0%Z) as [_ Hright]; [reflexivity |].
  apply Hright. reflexivity.
Defined.

Lemma checkFill_grading_witness :
  isCorrect (@checkFill Vietnamese.table typing) = Some true.
Proof.
  destruct (@checkFill_grading Vietnamese.table typing capital) as [Hverdict _];
    [reflexivity | reflexivity | reflexivity |].
  apply Hverdict. vm_compute. reflexivity.
Defined.

Lemma grading_framed_witness :
  framed asking (handleOptionClick 0 asking)
  /\ framed typing (@checkFill Vietnamese.table typing).
Proof.
  split.
  - apply (@grading_framed Vietnamese.table asking).
  - apply (@grading_framed Vietnamese.table typing).
Defined.

Lemma navigation_bounds_witness :
  @step Vietnamese.table answered ClickNext = answered
  /\ @step Vietnamese.table asking ClickPrev = asking
  /\ inRange (next asking).
Proof.
  destruct (@navigation_bounds Vietnamese.table answered) as (Hlast & _ & _).
  destruct (@navigation_bounds Vietnamese.table asking) as (_ & Hfirst & Hin).
  split; [apply Hlast; reflexivity |].
  split; [apply Hfirst; reflexivity |].
  apply Hin. unfold inRange. vm_compute. split; [discriminate | reflexivity].
Defined.

Lemma resubmit_when_revealed_witness :
  handleOptionClick 0 answered = answered
  /\ @step Vietnamese.table answered ClickCheck = answered
  /\ sameCounters answered (@step Vietnamese.table answered (KeyDown Cases.enterInInput)).
Proof.
  destruct (@resubmit_when_revealed Vietnamese.table answered)
    as (Hclick & _ & Hcheck & Hsubmit & _); [reflexivity |].
  split; [apply Hclick |]. split; [exact Hcheck |].
  apply (Hsubmit (KeyDown Cases.enterInInput)). reflexivity.
Defined.

(** Where the guard of the fill-in check is.  [checkFill] itself does not
    test [revealed]: called on [answered], the state right after a
    successful check, it would count the question a second time.  The page
    makes no such call: the check button is rendered only while [revealed]
    is false, and Enter in the text input advances instead. *)
Remark checkFill_counts_again :
  revealed answered = true
  /\ seenCount answered (lit "2") = 1%Z
  /\ correctCount answered (lit "2") = 1%Z
  /\ seenCount (@checkFill Vietnamese.table answered) (lit "2") = 2%Z
  /\ correctCount (@checkFill Vietnamese.table answered) (lit "2") = 2%Z
  /\ ~ sameCounters answered (@checkFill Vietnamese.table answered).
Proof.
  do 5 (split; [vm_compute; reflexivity |]).
  intros (Hseen & _ & _).
  assert (seenCount (@checkFill Vietnamese.table answered) (lit "2")
          = seenCount answered (lit "2")) as H.
  { unfold seenCount. by rewrite Hseen. }
  vm_compute in H. discriminate H.
Qed.

(** The end-to-end run of the specification: option 0 on the first
    question, advance, "ha noi" on the second. *)
Example end_to_end :
  let s0 := asking in
  let s1 := @step Vietnamese.table s0 (ClickOption 0) in
  let s2 := @step Vietnamese.table s1 ClickNext in
  let s3 := @step Vietnamese.table s2 (ChangeInput (lit "ha noi")) in
  let s4 := @step Vietnamese.table s3
              (KeyDown {| key := Enter; targetIsInput := true;
                          ctrlKey := false; metaKey := false |}) in
  filtered [statement; capital] allInOrder noProgress draws = working s0
  /\ (revealed s1, isCorrect s1, correctCount s1 (lit "1")) = (true, Some true, 1%Z)
  /\ (idx s2, revealed s2) = (1%Z, false)
  /\ (revealed s4, isCorrect s4, correctCount s4 (lit "2")) = (true, Some true, 1%Z).
Proof. vm_compute. repeat split; reflexivity. Qed.

End AppFacts.

(** * Further properties *)

(** ** The loader *)
Module LoaderFacts.
Import Text Bank Store App Summary Examples Cases BankFacts AppFacts.

(** X1: the fields of a loaded question come in one of three shapes: a
    fill-in question has the answer of its entry, copied as it is, and
    neither options nor [correctIndex]; any other question has no
    [correctAnswer], and it has options, in the order and with the texts of
    its entry, together with a [correctIndex] exactly when the entry has an
    options list. *)
Theorem processQuestion_shape (q : RawQuestion) :
  let p := processQuestion q in
  (is_Some (options p) <-> is_Some (correctIndex p))
  /\ (is_Some (options p) -> correctAnswer p = None)
  /\ (raw_type q = fill_in_blank ->
      options p = None /\ correctIndex p = None /\ correctAnswer p = answer q)
  /\ (raw_type q <> fill_in_blank ->
      correctAnswer p = None
      /\ options p = (fun opts : list RawOption => o_text <$> opts) <$> raw_options q
      /\ correctIndex p
         = (fun opts : list RawOption => findIndex is_correct opts) <$> raw_options q)
  /\ q_type p = raw_type q /\ prompt p = question q
  /\ typeLabel p = type_description q /\ explanation p = raw_explanation q.
Proof.
  unfold processQuestion.
  destruct (decide (raw_type q = fill_in_blank)) as [Hty | Hty].
  - cbn. repeat split; try done; by intros [? ?].
  - destruct (raw_options q) as [opts |]; cbn; repeat split; try done;
      by intros [? ?].
Qed.

Lemma processQuestion_shape_witness :
  correctAnswer capital = Some (take 6 HaNoi) /\ options capital = None
  /\ correctAnswer statement = None
  /\ options statement = Some [lit "Dung"; lit "Sai"].
Proof.
  destruct (processQuestion_shape rawCapital) as (_ & _ & Hfill & _).
  destruct (processQuestion_shape (rawChoice 1 (yesNo true false)))
    as (_ & _ & _ & Hchoice & _).
  destruct Hfill as (Ho & _ & Ha); [reflexivity |].
  destruct Hchoice as (Ha' & Ho' & _); [discriminate |].
  split; [exact Ha |]. split; [exact Ho |]. split; [exact Ha' | exact Ho'].
Defined.

Lemma lit_inj : Inj (=) (=) lit.
Proof.
  intros s. induction s as [| a s IH]; intros [| b t] H; simplify_eq/=; [done |].
  f_equal; [| by apply IH].
  rewrite <- (ascii_N_embedding a), <- (ascii_N_embedding b). congruence.
Qed.

Lemma String_of_number_inj : Inj (=) (=) String_of_number.
Proof. intros m n H. by apply (inj pretty), lit_inj. Qed.

(** X2: [processQuestions] keeps the entries in order, one question per entry,
    and entries with pairwise distinct numeric ids are loaded with pairwise
    distinct string ids. *)
Theorem processQuestions_ids (raw : list RawQuestion) :
  length (processQuestions raw) = length raw
  /\ q_id <$> processQuestions raw = String_of_number <$> (raw_id <$> raw)
  /\ (NoDup (raw_id <$> raw) -> NoDup (q_id <$> processQuestions raw)).
Proof.
  unfold processQuestions.
  assert (q_id <$> (processQuestion <$> raw) = String_of_number <$> (raw_id <$> raw)) as Hids.
  { rewrite <- !list_fmap_compose. apply list_fmap_ext. intros _ q _.
    unfold processQuestion; cbn.
    destruct (decide _); [done |]. by destruct (raw_options q). }
  split; [by rewrite length_fmap |]. split; [exact Hids |].
  intros Hnd. rewrite Hids. apply NoDup_fmap_2; [| done].
  apply String_of_number_inj.
Qed.

Lemma processQuestions_ids_witness :
  NoDup (q_id <$> processQuestions [rawChoice 1 (yesNo true false); rawCapital]).
Proof.
  apply (processQuestions_ids [rawChoice 1 (yesNo true false); rawCapital]).
  apply (bool_decide_unpack _). vm_compute. exact I.
Defined.

(** X3: a choice question loaded from an entry none of whose options is flagged
    cannot be answered right: whatever option is clicked while it is current
    and not yet revealed, the verdict is wrong and it is the wrong count
    that goes up. *)
Theorem unflagged_always_wrong (raw : RawQuestion) (opts : list RawOption) (st : State) :
  raw_type raw <> fill_in_blank ->
  raw_options raw = Some opts ->
  flagged opts = 0%nat ->
  current st = Some (processQuestion raw) ->
  revealed st = false ->
  forall i : nat,
    let st' := handleOptionClick (Z.of_nat i) st in
    let q := q_id (processQuestion raw) in
    isCorrect st' = Some false
    /\ wrongCount st' q = (wrongCount st q + 1)%Z
    /\ correctCount st' q = correctCount st q.
Proof.
  intros Hty Hopts Hflag Hcur Hrev i st' q.
  assert (correctIndex (processQuestion raw) = Some (-1)%Z) as Hnone.
  { unfold processQuestion. rewrite decide_False by done. rewrite Hopts.
    cbn [correctIndex]. unfold findIndex.
    by rewrite findIndexFrom_none by by apply flagged_zero. }
  assert (isCorrectOption (Z.of_nat i) (processQuestion raw) = false) as Hok.
  { unfold isCorrectOption. rewrite Hnone. apply Z.eqb_neq. lia. }
  unfold st'. rewrite (handleOptionClick_graded _ _ _ Hrev Hcur), Hok.
  destruct (grade_counts q false (Some (Z.of_nat i)) st) as (_ & Hc & Hw).
  done.
Qed.


Lemma unflagged_always_wrong_witness :
  isCorrect (handleOptionClick 1 doubtful) = Some false.
Proof.
  apply (unflagged_always_wrong noFlag (yesNo false false) doubtful
           ltac:(discriminate) eq_refl eq_refl eq_refl eq_refl 1%nat).
Defined.

End LoaderFacts.

(** ** The normalizer and the blank test *)
Module InputFacts.
Import Text Bank Store App Summary Examples Cases TextFacts AppFacts.

Lemma trim_fixed_ends s : trim s = s -> trimStart s = s /\ trimEnd s = s.
Proof.
  intros H. unfold trim in H. split.
  - rewrite <- H at 1. rewrite trimStart_fixed_trimEnd by apply trimStart_idem. done.
  - rewrite <- H at 1. by rewrite trimEnd_idem.
Qed.

Lemma trimStart_fixed_head s c : trimStart s = s -> head s = Some c -> isWhiteSpace c = false.
Proof.
  destruct s as [| d s]; [done |]. simpl. intros H [= ->].
  destruct (isWhiteSpace c) eqn:W; [| done].
  pose proof (trimStart_shorter s) as Hle. rewrite H in Hle. simpl in Hle. lia.
Qed.

Lemma trimEnd_fixed_last s c : trimEnd s = s -> last s = Some c -> isWhiteSpace c = false.
Proof.
  intros H Hlast. apply (trimStart_fixed_head (reverse s)).
  - rewrite trimEnd_reverse in H. apply (f_equal reverse) in H.
    by rewrite reverse_involutive in H.
  - by rewrite head_reverse.
Qed.

(** X4: whatever the host functions do with the text, the result of [normalize]
    holds only the code units of [[a-z0-9]] and the space, never two spaces
    in a row, and neither begins nor ends with a space. *)
Theorem normalize_shape {U : Unicode} (s : jsstring) :
  forallb plain (normalize s) = true
  /\ squeezed false (normalize s) = true
  /\ head (normalize s) <> Some 32
  /\ last (normalize s) <> Some 32.
Proof.
  destruct (normalize_canonical s) as (Hp & Hq & Ht).
  destruct (trim_fixed_ends _ Ht) as [Hs He].
  split; [exact Hp |]. split; [exact Hq |]. split.
  - intros H. by pose proof (trimStart_fixed_head _ _ Hs H).
  - intros H. by pose proof (trimEnd_fixed_last _ _ He H).
Qed.

Lemma trimStart_nil s : trimStart s = [] <-> forallb isWhiteSpace s = true.
Proof.
  induction s as [| c s IH]; [done |]. simpl.
  destruct (isWhiteSpace c); [exact IH | done].
Qed.

Lemma trimEnd_nil s : trimEnd s = [] -> s = [] \/ exists c, head s = Some c /\ isWhiteSpace c = true.
Proof.
  destruct s as [| c s]; [by left |]. simpl. intros H. right. exists c.
  destruct (trimEnd s); [| done]. by destruct (isWhiteSpace c).
Qed.

(** [isBlank] holds exactly of the strings made of white space only, the
    empty string among them. *)
Lemma isBlank_spec s : isBlank s = true <-> forallb isWhiteSpace s = true.
Proof.
  rewrite <- trimStart_nil. unfold isBlank, trim. split.
  - intros H. destruct (trimEnd (trimStart s)) eqn:E; [| done].
    apply trimEnd_nil in E as [E | (c & Hc & W)]; [done |].
    by rewrite (trimStart_fixed_head _ _ (trimStart_idem s) Hc) in W.
  - by intros ->.
Qed.

(** X5: an input made of white space only is not submitted: the fill-in check
    returns the state as it is, and so do a click on the check button and,
    before the reveal, the Enter key in the text input. *)
Theorem blank_input_rejected {U : Unicode} (st : State) :
  forallb isWhiteSpace (fillValue st) = true ->
  checkFill st = st
  /\ step st ClickCheck = st
  /\ (revealed st = false -> step st (KeyDown enterInInput) = st).
Proof.
  intros Hws%isBlank_spec.
  assert (checkFill st = st) as Hcheck.
  { unfold checkFill. rewrite Hws. by repeat case_match. }
  split; [exact Hcheck |]. split.
  - unfold step, handle. rewrite Hcheck.
    destruct (current st); [| apply afterRender_same].
    destruct (_ && _); apply afterRender_same.
  - intros Hrev. unfold step, handle, onKey. rewrite Hrev, Hcheck. cbn.
    destruct (current st); apply afterRender_same.
Qed.

Lemma trimStart_padding pad s :
  forallb isWhiteSpace pad = true -> trimStart (pad ++ s) = trimStart s.
Proof.
  induction pad as [| c pad IH]; [done |]. simpl.
  intros [-> Hpad]%andb_true_iff. auto.
Qed.

Lemma trimEnd_padding s pad :
  forallb isWhiteSpace pad = true -> trimEnd (s ++ pad) = trimEnd s.
Proof.
  intros Hpad. rewrite !trimEnd_reverse, reverse_app. f_equal.
  apply trimStart_padding.
  by apply Is_true_true, forallb_True, Forall_reverse, forallb_True, Is_true_true.
Qed.

Lemma trim_padding l s r :
  forallb isWhiteSpace l = true -> forallb isWhiteSpace r = true ->
  trim (l ++ s ++ r) = trim s.
Proof.
  intros Hl Hr. unfold trim. rewrite (trimStart_padding l) by done.
  destruct (trimStart s) as [| c t] eqn:E.
  - apply trimStart_nil in E.
    assert (trimStart (s ++ r) = []) as ->; [| done].
    apply trimStart_nil. rewrite forallb_app. by rewrite E, Hr.
  - assert (trimStart (s ++ r) = (c :: t) ++ r) as ->.
    { clear Hl Hr. induction s as [| d s IH]; [done |]. simpl in *.
      destruct (isWhiteSpace d); [auto | by inversion E]. }
    by apply trimEnd_padding.
Qed.

(** X6: white space typed before or after an answer does not count: for every
    behaviour of the host functions, [normalize] gives the same result with
    and without it. *)
Theorem normalize_ignores_padding {U : Unicode} (l s r : jsstring) :
  forallb isWhiteSpace l = true -> forallb isWhiteSpace r = true ->
  normalize (l ++ s ++ r) = normalize s.
Proof. intros Hl Hr. unfold normalize. by rewrite trim_padding. Qed.

(** X7: a fill-in question without an answer is not refused by the check: its
    answer counts as the empty string, so every input that is not blank and
    that [normalize] reduces to the empty string, one made of punctuation
    for instance, is graded correct. *)
Theorem missing_answer_accepts_symbols {U : Unicode} (st : State) (cur : Question) :
  fixesPlain toLowerCase -> fixesPlain normalizeNFD ->
  current st = Some cur -> q_type cur = fill_in_blank ->
  correctAnswer cur = None ->
  isBlank (fillValue st) = false ->
  normalize (fillValue st) = [] ->
  isCorrect (checkFill st) = Some true
  /\ correctCount (checkFill st) (q_id cur) = (correctCount st (q_id cur) + 1)%Z.
Proof.
  intros Hlow Hnfd Hcur Hty Hans Hblank Hnorm.
  assert (normalize [] = []) as Hnil.
  { by apply normalize_fixes_canonical. }
  assert (isCorrectText (fillValue st) cur = true) as Hok.
  { unfold isCorrectText. rewrite Hans. cbn [default].
    apply bool_decide_eq_true. by rewrite Hnorm, Hnil. }
  rewrite (checkFill_graded st cur), Hok by done.
  destruct (grade_counts (q_id cur) true (selected st) st) as (_ & Hc & _).
  done.
Qed.


Lemma blank_input_rejected_witness :
  @step Vietnamese.table (setFillValue (lit "   ") typing) ClickCheck
  = setFillValue (lit "   ") typing.
Proof.
  destruct (@blank_input_rejected Vietnamese.table (setFillValue (lit "   ") typing))
    as (_ & Hclick & _); [reflexivity |].
  exact Hclick.
Defined.

Lemma normalize_ignores_padding_witness :
  @normalize Vietnamese.table (lit "  " ++ lit "ha noi" ++ lit " ")
  = @normalize Vietnamese.table (lit "ha noi").
Proof. apply normalize_ignores_padding; reflexivity. Defined.

Lemma missing_answer_accepts_symbols_witness :
  isCorrect (@checkFill Vietnamese.table puzzled) = Some true.
Proof.
  apply (@missing_answer_accepts_symbols Vietnamese.table puzzled
           (processQuestion rawNoAnswer)).
  - exact VietnameseFacts.toLowerCase_fixesPlain.
  - exact VietnameseFacts.normalizeNFD_fixesPlain.
  - reflexivity.
  - reflexivity.
  - reflexivity.
  - reflexivity.
  - vm_compute. reflexivity.
Defined.

End InputFacts.

(** ** More on the sampler *)
Module SamplingFacts.
Import Bank Store Sampler Examples SamplerFacts.

(** X8: for every stream of draws [shuffle] returns a rearrangement of its
    argument: the same elements, each as often as before, so also the same
    length; an array of at most one element comes back as it is. *)
Theorem shuffle_rearranges {A} (random : nat -> nat) (arr : list A) :
  shuffle random arr ≡ₚ arr
  /\ length (shuffle random arr) = length arr
  /\ (forall x, x ∈ shuffle random arr <-> x ∈ arr)
  /\ ((length arr <= 1)%nat -> shuffle random arr = arr).
Proof.
  pose proof (shuffle_perm random arr) as Hperm.
  split; [exact Hperm |]. split; [by rewrite Hperm |]. split.
  - intros x. by rewrite Hperm.
  - intros Hlen. unfold shuffle.
    replace (length arr - 1)%nat with 0%nat by lia. done.
Qed.

Lemma first20_sublist {A} (l : list A) : first20 l `sublist_of` l.
Proof. apply sublist_take. Qed.

Lemma ofType_sublist f (QUESTIONS : list Question) : ofType f QUESTIONS `sublist_of` QUESTIONS.
Proof. apply sublist_filter. Qed.

(** The four steps of the memo, with the type filter written as [ofType]. *)
Lemma filtered_steps (QUESTIONS : list Question) filters currentProgress random :
  filtered QUESTIONS filters currentProgress random
  = let list2 :=
      if decide (f_mode filters = wrongOnly)
      then filter (fun q => missedMore currentProgress q = true)
                  (ofType (f_type filters) QUESTIONS)
      else ofType (f_type filters) QUESTIONS in
    let list3 := if f_shuffle filters then shuffle random list2 else list2 in
    if decide (f_mode filters = random20) then first20 list3 else list3.
Proof. unfold filtered. by rewrite type_step. Qed.

(** X9: whatever the filters, the snapshot and the draws, the working set is
    drawn from the bank: it holds no question more often than the bank does,
    every member passes the type filter, and with mode All it is a
    rearrangement of all the questions that pass it. *)
Theorem filtered_from_bank (QUESTIONS : list Question) (filters : Filters)
    (currentProgress : Progress) (random : nat -> nat) :
  let workingSet := filtered QUESTIONS filters currentProgress random in
  workingSet ⊆+ ofType (f_type filters) QUESTIONS
  /\ workingSet ⊆+ QUESTIONS
  /\ (forall q, q ∈ workingSet -> q ∈ QUESTIONS /\ typeMatches (f_type filters) q = true)
  /\ (f_mode filters = mode_all -> workingSet ≡ₚ ofType (f_type filters) QUESTIONS).
Proof.
  intros workingSet.
  assert (workingSet ⊆+ ofType (f_type filters) QUESTIONS) as Hsub.
  { unfold workingSet. rewrite filtered_steps. cbv zeta.
    set (list2 := if decide (f_mode filters = wrongOnly) then _ else _).
    assert (list2 ⊆+ ofType (f_type filters) QUESTIONS) as H2.
    { unfold list2. destruct (decide _); [| done].
      apply sublist_submseteq, sublist_filter. }
    rewrite <- H2. destruct (decide (f_mode filters = random20)).
    - rewrite (sublist_submseteq _ _ (first20_sublist _)). by rewrite shuffle_step.
    - by rewrite shuffle_step. }
  assert (workingSet ⊆+ QUESTIONS) as Hbank.
  { rewrite Hsub. apply sublist_submseteq, ofType_sublist. }
  split; [exact Hsub |]. split; [exact Hbank |]. split.
  - intros q Hq. split.
    + by apply (elem_of_submseteq _ _ _ Hq).
    + apply (elem_of_submseteq _ _ _ Hq) in Hsub. unfold ofType in Hsub.
      by apply list_elem_of_filter in Hsub as [? _].
  - intros Hmode. unfold workingSet. rewrite filtered_steps, Hmode. cbv zeta.
    destruct (decide (mode_all = wrongOnly)) as [? | _]; [done |].
    destruct (decide (mode_all = random20)) as [? | _]; [done |].
    apply shuffle_step.
Qed.

(** X10: with shuffling off the working set keeps the order of the bank (it is
    the bank with some questions left out) and does not depend on the
    draws; with mode All it is exactly the questions that pass the type
    filter, in bank order. *)
Theorem filtered_in_order (QUESTIONS : list Question) (filters : Filters)
    (currentProgress : Progress) (random : nat -> nat) :
  f_shuffle filters = false ->
  filtered QUESTIONS filters currentProgress random `sublist_of` QUESTIONS
  /\ (forall random', filtered QUESTIONS filters currentProgress random'
                     = filtered QUESTIONS filters currentProgress random)
  /\ (f_mode filters = mode_all ->
      filtered QUESTIONS filters currentProgress random
      = ofType (f_type filters) QUESTIONS).
Proof.
  intros Hoff. rewrite filtered_steps, Hoff. cbv zeta. split; [| split].
  - etrans; [| apply ofType_sublist].
    destruct (decide (f_mode filters = random20));
      [etrans; [apply first20_sublist |] |];
      (destruct (decide (f_mode filters = wrongOnly)); [apply sublist_filter | done]).
  - intros random'. by rewrite filtered_steps, Hoff.
  - intros ->.
    destruct (decide (mode_all = wrongOnly)) as [? | _]; [done |].
    by destruct (decide (mode_all = random20)) as [? | _].
Qed.

Lemma filtered_in_order_witness :
  filtered [statement; capital] allInOrder snapshot draws = [statement; capital].
Proof.
  destruct (filtered_in_order [statement; capital] allInOrder snapshot draws)
    as (_ & _ & Hall); [reflexivity |].
  rewrite Hall; reflexivity.
Defined.

(** X11: unless the mode is WrongOnly the working set does not depend on the
    progress: two snapshots give the same working set. *)
Theorem filtered_ignores_progress (QUESTIONS : list Question) (filters : Filters)
    (p1 p2 : Progress) (random : nat -> nat) :
  f_mode filters <> wrongOnly ->
  filtered QUESTIONS filters p1 random = filtered QUESTIONS filters p2 random.
Proof.
  intros Hmode. rewrite !filtered_steps. cbv zeta.
  by destruct (decide (f_mode filters = wrongOnly)).
Qed.

Lemma filtered_ignores_progress_witness :
  filtered (bank 50) random20Shuffled noProgress draws
  = filtered (bank 50) random20Shuffled snapshot draws.
Proof. apply filtered_ignores_progress. discriminate. Defined.

Section Reach.
Context {A : Type}.
Implicit Types (a t : list A) (i j : nat).

Lemma shuffleLoop_ext r1 r2 call i a :
  (forall k, (call <= k)%nat -> r1 k = r2 k) ->
  shuffleLoop r1 call i a = shuffleLoop r2 call i a.
Proof.
  revert call a. induction i as [| i IH]; intros call a H; [done |].
  cbn [shuffleLoop]. rewrite (H call) by lia. apply IH. intros k Hk. apply H. lia.
Qed.

Lemma snoc_perm_inv (l k : list A) x : l ++ [x] ≡ₚ k ++ [x] -> l ≡ₚ k.
Proof.
  intros H. apply (inj (cons x)).
  etrans; [apply Permutation_cons_append |].
  etrans; [exact H |]. symmetry. apply Permutation_cons_append.
Qed.

(** One exchange that brings [x] to position [i]. *)
Lemma swap_places a t i j x :
  (j <= i)%nat -> (i < length a)%nat ->
  a !! j = Some x -> t !! i = Some x ->
  take (S i) a ≡ₚ take (S i) t -> drop (S i) a = drop (S i) t ->
  take i (swap a i j) ≡ₚ take i t /\ drop i (swap a i j) = drop i t
  /\ length (swap a i j) = length a.
Proof.
  intros Hji Hi Hj Ht Htake Hdrop.
  destruct (lookup_lt_is_Some_2 a i Hi) as [y Hy].
  unfold swap. rewrite Hy, Hj.
  set (a' := <[j:=y]> (<[i:=x]> a)).
  assert (length a' = length a) as Hlen by (unfold a'; by rewrite !length_insert).
  assert (a' !! i = Some x) as Hi'.
  { unfold a'. destruct (decide (j = i)) as [-> | Hne].
    - rewrite list_lookup_insert_eq by (rewrite length_insert; lia). congruence.
    - rewrite list_lookup_insert_ne by done. by rewrite list_lookup_insert_eq. }
  assert (drop (S i) a' = drop (S i) a) as Hd.
  { unfold a'. by rewrite !drop_insert_lt by lia. }
  assert (take (S i) a' ≡ₚ take (S i) a) as Hp.
  { unfold a'. rewrite !take_insert_lt by lia.
    pose proof (swap_perm (take (S i) a) i j) as Hs. unfold swap in Hs.
    rewrite !lookup_take_lt, Hy, Hj in Hs by lia. exact Hs. }
  split; [| split; [| exact Hlen]].
  - apply (snoc_perm_inv _ _ x).
    rewrite <- (take_S_r a' i x Hi'), <- (take_S_r t i x Ht). by rewrite Hp.
  - rewrite (drop_S a' x i Hi'), (drop_S t x i Ht). by rewrite Hd, Hdrop.
Qed.

Lemma shuffleLoop_reaches i call a t :
  (i < length a)%nat ->
  take (S i) a ≡ₚ take (S i) t -> drop (S i) a = drop (S i) t ->
  exists random, shuffleLoop random call i a = t.
Proof.
  revert call a. induction i as [| i IH]; intros call a Hi Htake Hdrop.
  - exists (fun _ => 0%nat). simpl.
    rewrite <- (take_drop 1 a), <- (take_drop 1 t), Hdrop. f_equal.
    destruct a as [| x a]; [simpl in Hi; lia |].
    destruct t as [| y t]; [by apply Permutation_nil_r in Htake |].
    simpl in *. by apply Permutation_singleton_inj in Htake as ->.
  - assert (length (take (S (S i)) t) = S (S i)) as Hlt.
    { rewrite <- Htake. rewrite length_take. lia. }
    rewrite length_take in Hlt.
    destruct (lookup_lt_is_Some_2 t (S i)) as [x Hx]; [lia |].
    assert (x ∈ take (S (S i)) a) as Hin.
    { rewrite Htake. apply (list_elem_of_lookup_2 _ (S i)).
      by rewrite lookup_take_lt by lia. }
    apply list_elem_of_lookup_1 in Hin as [j Hj].
    assert (j < S (S i))%nat as Hjlt.
    { apply lookup_lt_Some in Hj. rewrite length_take in Hj. lia. }
    rewrite lookup_take_lt in Hj by done.
    destruct (swap_places a t (S i) j x) as (Hp & Hd & Hl);
      [lia | done | done | done | done | done |].
    destruct (IH (S call) (swap a (S i) j)) as [random' Hr];
      [lia | done | done |].
    exists (fun k => if decide (k = call) then j else random' k).
    cbn [shuffleLoop]. rewrite decide_True by done.
    replace (j `mod` (S i + 1))%nat with j by (symmetry; apply Nat.mod_small; lia).
    rewrite <- Hr. apply shuffleLoop_ext. intros k Hk.
    rewrite decide_False by lia. done.
Qed.

(** X12: the shuffle can produce every order: for each rearrangement of an
    array there are draws with which [shuffle] returns it. *)
Theorem shuffle_reaches_every_order (arr target : list A) :
  target ≡ₚ arr -> exists random, shuffle random arr = target.
Proof.
  intros Hperm. unfold shuffle.
  destruct arr as [| x arr].
  - apply Permutation_nil_r in Hperm as ->. by exists (fun _ => 0%nat).
  - apply shuffleLoop_reaches.
    + simpl. lia.
    + pose proof (Permutation_length Hperm) as Hlen.
      rewrite !take_ge by (simpl in *; lia). done.
    + pose proof (Permutation_length Hperm) as Hlen.
      rewrite !drop_ge by (simpl in *; lia). done.
Qed.

End Reach.


Lemma shuffle_rearranges_witness : shuffle draws [7] = [7].
Proof. apply (shuffle_rearranges draws [7]). simpl. lia. Defined.

Lemma shuffle_reaches_every_order_witness :
  exists random, shuffle random [10; 20; 30] = [30; 10; 20].
Proof.
  apply shuffle_reaches_every_order.
  apply (bool_decide_unpack _). vm_compute. exact I.
Defined.

Lemma filtered_from_bank_witness :
  filtered (bank 5) {| f_type := type_all; f_mode := mode_all; f_shuffle := true |}
           snapshot draws
  ≡ₚ bank 5.
Proof.
  apply (filtered_from_bank (bank 5)
           {| f_type := type_all; f_mode := mode_all; f_shuffle := true |}
           snapshot draws).
  reflexivity.
Defined.

End SamplingFacts.

(** ** Writing, reading back and wiping the store *)
Module PersistFacts.
Import Bank Store Persist App Summary Examples Cases StoreFacts AppFacts.

Lemma assoc_objectOf (a b c d : json) :
  let props := [ (lit "seen", a); (lit "wrong", b);
                 (lit "correct", c); (lit "starred", d) ] in
  assoc (lit "seen") props = Some a /\ assoc (lit "wrong") props = Some b
  /\ assoc (lit "correct") props = Some c /\ assoc (lit "starred") props = Some d.
Proof. by vm_compute. Qed.

Lemma orEmptyObject_value v : v <> JNull -> orEmptyObject (Some v) = v.
Proof. by destruct v. Qed.

(** X13: what [saveProgress] writes is what [loadProgress] reads back.  For a
    progress value none of whose four fields is [null], on a storage that
    can be used, and with a [JSON.parse] that undoes [JSON.stringify] on this
    value, saving succeeds, loading afterwards returns the value saved, and
    the items under other keys are as before. *)
Theorem save_then_load (JSON_stringify : json -> jsstring)
    (JSON_parse : jsstring -> result json)
    (p : Document) (items : gmap jsstring jsstring) :
  JSON_stringify (objectOf p) <> [] ->
  JSON_parse (JSON_stringify (objectOf p)) = Return (objectOf p) ->
  d_seen p <> JNull -> d_wrong p <> JNull ->
  d_correct p <> JNull -> d_starred p <> JNull ->
  exists ls',
    saveProgress JSON_stringify p (Items items) = Return ls'
    /\ loadProgress JSON_parse ls' = p
    /\ forall k, k <> LS_KEY -> getItem ls' k = Return (items !! k).
Proof.
  intros Htext Hparse Hs Hw Hc Hst. eexists. split; [reflexivity |]. split.
  - unfold loadProgress, loadProgress_try, getItem.
    rewrite lookup_insert_eq. cbn [bind].
    destruct (JSON_stringify (objectOf p)) as [| c text] eqn:E; [done |].
    rewrite Hparse. cbn [bind].
    destruct (assoc_objectOf (d_seen p) (d_wrong p) (d_correct p) (d_starred p))
      as (Hs' & Hw' & Hc' & Hst').
    unfold getProp, objectOf. cbn [bind].
    rewrite Hs', Hw', Hc', Hst'. cbn [bind tryCatch].
    rewrite !orEmptyObject_value by done. by destruct p.
  - intros k Hk. unfold getItem. by rewrite lookup_insert_ne.
Qed.

(** X15: a stored text that parses to something other than a progress
    object is not an error: [null], a number, a string, a boolean, an array,
    and an object with none of the four properties all load as the empty
    store. *)
Theorem other_shapes_load_empty (JSON_parse : jsstring -> result json)
    (items : gmap jsstring jsstring) (text : jsstring) (v : json) :
  items !! LS_KEY = Some text ->
  JSON_parse text = Return v ->
  (forall props, v <> JObject props)
  \/ (exists props, v = JObject props
       /\ assoc (lit "seen") props = None /\ assoc (lit "wrong") props = None
       /\ assoc (lit "correct") props = None /\ assoc (lit "starred") props = None) ->
  loadProgress JSON_parse (Items items) = emptyDocument.
Proof.
  intros Hitem Hparse Hshape.
  unfold loadProgress, loadProgress_try, getItem. rewrite Hitem. cbn [bind].
  destruct text as [| c text]; [done |]. rewrite Hparse. cbn [bind].
  destruct Hshape as [Hnot | (props & -> & Hs & Hw & Hc & Hst)].
  - destruct v; try done. by destruct (Hnot props).
  - unfold getProp. cbn [bind]. by rewrite Hs, Hw, Hc, Hst.
Qed.

(** X14: the reset button wipes everything: after [removeItem] loading gives the
    empty store whatever [JSON.parse] does, and in the component every
    counter of every question is zero and no star is left, while the
    position and the answer on display stay as they are; declining the
    confirmation changes nothing. *)
Theorem reset_wipes {U : Text.Unicode} (JSON_parse : jsstring -> result json)
    (items : gmap jsstring jsstring) (st : State) :
  (exists ls', wipe (Items items) = Return ls'
               /\ loadProgress JSON_parse ls' = emptyDocument)
  /\ step st (ClickReset true) = setProgress (fun _ => emptyProgress) st
  /\ (forall qid,
        seenCount (step st (ClickReset true)) qid = 0%Z
        /\ correctCount (step st (ClickReset true)) qid = 0%Z
        /\ wrongCount (step st (ClickReset true)) qid = 0%Z
        /\ starred (progress (step st (ClickReset true))) !! qid = None)
  /\ step st (ClickReset false) = st.
Proof.
  assert (step st (ClickReset true) = setProgress (fun _ => emptyProgress) st) as Hstep.
  { unfold step, handle, afterRender, questionChanged. cbn.
    by rewrite Z.eqb_refl, bool_decide_eq_true_2. }
  split; [| split; [exact Hstep | split]].
  - eexists. split; [reflexivity |].
    unfold loadProgress, loadProgress_try, getItem. by rewrite lookup_delete_eq.
  - intros qid. rewrite Hstep. done.
  - unfold step, handle. apply afterRender_same.
Qed.


Lemma save_then_load_witness :
  exists ls',
    saveProgress JsonText.stringify snapshotObject (Items otherItems) = Return ls'
    /\ loadProgress JsonText.parse ls' = snapshotObject
    /\ loadProgress JsonText.parse ls' <> emptyDocument
    /\ getItem ls' (lit "theme") = Return (Some (lit "dark")).
Proof.
  destruct (save_then_load JsonText.stringify JsonText.parse snapshotObject otherItems)
    as (ls' & Hsave & Hload & Hother);
    [vm_compute; discriminate | vm_compute; reflexivity
    | discriminate | discriminate | discriminate | discriminate |].
  exists ls'. split; [exact Hsave |]. split; [exact Hload |]. split.
  - rewrite Hload. discriminate.
  - rewrite Hother by (vm_compute; discriminate). reflexivity.
Defined.

Lemma other_shapes_load_empty_witness :
  loadProgress readNull (Items {[ LS_KEY := lit "null" ]}) = emptyDocument.
Proof.
  apply (other_shapes_load_empty readNull {[ LS_KEY := lit "null" ]}
           (lit "null") JNull).
  - apply lookup_singleton_eq.
  - reflexivity.
  - left. discriminate.
Defined.

End PersistFacts.

(** ** Counters along a session *)
Module CounterFacts.
Import Text Bank Store App Summary Examples Cases AppFacts.

Lemma sumValues_empty : sumValues ∅ = 0%Z.
Proof. unfold sumValues. by rewrite map_fold_empty. Qed.

Lemma sumValues_fresh (rec : gmap (list N) Z) k v :
  rec !! k = None -> sumValues (<[k := v]> rec) = (sumValues rec + v)%Z.
Proof.
  intros Hk. unfold sumValues. rewrite map_fold_insert_L; [done | | done].
  intros. lia.
Qed.

(** Writing an entry changes the sum by the difference to the old value. *)
Lemma sumValues_insert (rec : gmap (list N) Z) k v :
  sumValues (<[k := v]> rec) = (sumValues rec - count rec k + v)%Z.
Proof.
  unfold count. destruct (rec !! k) as [x |] eqn:Hk; simpl.
  - rewrite <- (insert_delete_eq rec k v).
    rewrite sumValues_fresh by apply lookup_delete_eq.
    rewrite <- (insert_delete_id rec k x Hk) at 2.
    rewrite sumValues_fresh by apply lookup_delete_eq. lia.
  - rewrite sumValues_fresh by done. lia.
Qed.

#[local] Hint Constructors progressStep : handlers.

Lemma grade_progressStep ev qid ok sel st :
  progressStep (progress st) ev (progress (grade qid ok sel st)).
Proof. apply grade_progress. Qed.

Lemma handleOptionClick_progressStep ev optIdx st :
  progressStep (progress st) ev (progress (handleOptionClick optIdx st)).
Proof.
  unfold handleOptionClick. repeat case_match;
    auto using grade_progressStep with handlers.
Qed.

Lemma next_progressStep ev st : progressStep (progress st) ev (progress (next st)).
Proof. rewrite progress_next. constructor. Qed.

Lemma prev_progressStep ev st : progressStep (progress st) ev (progress (prev st)).
Proof. unfold prev. case_match; constructor. Qed.


Lemma count_insert (rec : gmap (list N) Z) k k' v :
  count (<[k := v]> rec) k' = if decide (k = k') then v else count rec k'.
Proof.
  unfold count. destruct (decide (k = k')) as [-> | Hne].
  - by rewrite lookup_insert_eq.
  - by rewrite lookup_insert_ne.
Qed.

Lemma sumValues_bump (rec : gmap (list N) Z) k :
  sumValues (<[k := (count rec k + 1)%Z]> rec) = (sumValues rec + 1)%Z.
Proof. rewrite sumValues_insert. lia. Qed.

Lemma progressStep_balanced p ev p' : progressStep p ev p' -> balanced p -> balanced p'.
Proof.
  intros Hstep Hb qid. destruct Hstep as [ev | | q | ev q ok]; try apply Hb.
  - done.
  - specialize (Hb qid). destruct ok; cbn; rewrite !count_insert;
      destruct (decide (q = qid)); subst; lia.
Qed.

Lemma progressStep_totals p ev p' :
  progressStep p ev p' -> totalsBalanced p -> totalsBalanced p'.
Proof.
  unfold totalsBalanced, stats. intros Hstep Hb.
  destruct Hstep as [ev | | q | ev q ok]; cbn in *; try done.
  destruct ok; cbn; rewrite !sumValues_bump; lia.
Qed.

Lemma progressStep_bounds p ev p' qid :
  progressStep p ev p' -> ev <> ClickReset true ->
  (count (seen p) qid <= count (seen p') qid <= count (seen p) qid + 1)%Z
  /\ (count (correct p) qid <= count (correct p') qid <= count (correct p) qid + 1)%Z
  /\ (count (wrong p) qid <= count (wrong p') qid <= count (wrong p) qid + 1)%Z.
Proof.
  intros Hstep Hev. destruct Hstep as [ev | | q | ev q ok]; cbn; try lia; [done |].
  destruct ok; cbn; rewrite !count_insert; destruct (decide (q = qid)); subst; lia.
Qed.

Section WithUnicode.
Context {U : Unicode}.

Lemma checkFill_progressStep ev st :
  progressStep (progress st) ev (progress (checkFill st)).
Proof.
  unfold checkFill. repeat case_match; auto using grade_progressStep with handlers.
Qed.

Lemma step_progressStep st ev : progressStep (progress st) ev (progress (step st ev)).
Proof.
  unfold step. rewrite progress_afterRender. unfold handle, onKey.
  pose proof (checkFill_progressStep ev st).
  pose proof (next_progressStep ev st). pose proof (prev_progressStep ev st).
  repeat case_match; subst; cbn [progress setProgress setFillValue];
    auto using handleOptionClick_progressStep with handlers.
Qed.


(** A property of the progress that every change an event can make
    preserves holds all along a run. *)
Lemma run_keeps (P : Progress -> Prop) :
  (forall p ev p', progressStep p ev p' -> P p -> P p') ->
  forall evs st, P (progress st) -> P (progress (foldl step st evs)).
Proof.
  intros Hkeep evs. induction evs as [| ev evs IH]; intros st H; [done |].
  simpl. apply IH. eapply Hkeep; [apply step_progressStep | done].
Qed.

(** X16: the header figures follow every grading: an option click on an unrevealed
    question, and a fill-in check that passes its guard, raise the total of
    answers by one and exactly one of the totals of right and of wrong
    answers by one. *)
Theorem grading_totals (st : State) (cur : Question) :
  current st = Some cur ->
  let before := stats (progress st) in
  let counted (st' : State) :=
    let after := stats (progress st') in
    stat_seen after = (stat_seen before + 1)%Z
    /\ ((stat_correct after = (stat_correct before + 1)%Z
         /\ stat_wrong after = stat_wrong before)
        \/ (stat_wrong after = (stat_wrong before + 1)%Z
            /\ stat_correct after = stat_correct before)) in
  (forall optIdx, revealed st = false -> counted (handleOptionClick optIdx st))
  /\ (q_type cur = fill_in_blank -> isBlank (fillValue st) = false ->
      counted (checkFill st)).
Proof.
  intros Hcur before counted.
  assert (forall ok sel, counted (grade (q_id cur) ok sel st)) as Hgrade.
  { intros ok sel. unfold counted, before, stats, grade.
    destruct ok; cbn; rewrite !sumValues_bump; auto. }
  split.
  - intros optIdx Hrev. by rewrite (handleOptionClick_graded _ _ cur).
  - intros Hty Hblank. by rewrite (checkFill_graded _ cur).
Qed.

(** X17: seen is right plus wrong, and stays so.  If every question has been
    seen as often as it has been answered right or wrong, that is still the
    case after any sequence of events, and likewise for the three totals of
    the header; both hold throughout a session that starts from the empty
    store. *)
Theorem seen_is_correct_plus_wrong (st : State) (evs : list Event) :
  (balanced (progress st) -> balanced (progress (foldl step st evs)))
  /\ (totalsBalanced (progress st) -> totalsBalanced (progress (foldl step st evs)))
  /\ (forall ws, balanced (progress (foldl step (start emptyProgress ws) evs))
                 /\ totalsBalanced (progress (foldl step (start emptyProgress ws) evs))).
Proof.
  split; [apply run_keeps, progressStep_balanced |].
  split; [apply run_keeps, progressStep_totals |].
  intros ws. split.
  - by apply run_keeps; [apply progressStep_balanced |].
  - apply run_keeps; [apply progressStep_totals |].
    unfold totalsBalanced, stats. cbn. by rewrite sumValues_empty.
Qed.

(** X18: no event but the confirmed reset takes anything back: each of the three
    counters of each question either stays or goes up by one. *)
Theorem counters_never_decrease (st : State) (ev : Event) (qid : jsstring) :
  ev <> ClickReset true ->
  (seenCount st qid <= seenCount (step st ev) qid <= seenCount st qid + 1)%Z
  /\ (correctCount st qid <= correctCount (step st ev) qid <= correctCount st qid + 1)%Z
  /\ (wrongCount st qid <= wrongCount (step st ev) qid <= wrongCount st qid + 1)%Z.
Proof.
  intros Hev. unfold seenCount, correctCount, wrongCount.
  apply (progressStep_bounds _ ev); [apply step_progressStep | done].
Qed.

(** X19: the star button flips the star of the current question and nothing
    else: a second click puts the star back, no counter and no star of
    another question changes, and the position and the answer on display
    stay. *)
Theorem star_toggles (st : State) (cur : Question) :
  current st = Some cur ->
  let shown (s : State) := default false (starred (progress s) !! q_id cur) in
  let st' := step st ClickStar in
  st' = setProgress (toggleStar (q_id cur)) st
  /\ shown st' = negb (shown st)
  /\ shown (step st' ClickStar) = shown st
  /\ sameCounters st st'
  /\ forall qid, qid <> q_id cur ->
       starred (progress st') !! qid = starred (progress st) !! qid.
Proof.
  intros Hcur shown st'.
  assert (forall s, current s = Some cur ->
            step s ClickStar = setProgress (toggleStar (q_id cur)) s) as Hstep.
  { intros s Hs. unfold step, handle. rewrite Hs.
    unfold afterRender, questionChanged.
    change (current (setProgress _ s)) with (current s).
    cbn [idx setProgress]. by rewrite Z.eqb_refl, bool_decide_eq_true_2. }
  assert (st' = setProgress (toggleStar (q_id cur)) st) as Hst' by by apply Hstep.
  assert (shown st' = negb (shown st)) as Hflip.
  { unfold shown. rewrite Hst'. cbn. by rewrite lookup_insert_eq. }
  split; [exact Hst' |]. split; [exact Hflip |]. split.
  - rewrite (Hstep st') by by rewrite Hst'.
    unfold shown at 1. cbn. rewrite lookup_insert_eq. cbn.
    fold (shown st'). rewrite Hflip. apply negb_involutive.
  - split; [by rewrite Hst' |].
    intros qid Hne. rewrite Hst'. cbn. by rewrite lookup_insert_ne.
Qed.

End WithUnicode.

Lemma grading_totals_witness :
  stat_seen (stats (progress (handleOptionClick 0 asking))) = 1%Z
  /\ stat_correct (stats (progress (handleOptionClick 0 asking))) = 1%Z.
Proof.
  destruct (@grading_totals Vietnamese.table asking statement) as [Hclick _];
    [reflexivity |].
  destruct (Hclick 0%Z) as [Hseen _]; [reflexivity |].
  split; [rewrite Hseen |]; vm_compute; reflexivity.
Defined.

Lemma seen_is_correct_plus_wrong_witness :
  balanced (progress (foldl (@step Vietnamese.table) asking [ClickOption 1; ClickNext])).
Proof.
  apply (@seen_is_correct_plus_wrong Vietnamese.table asking
           [ClickOption 1; ClickNext]).
Defined.

Lemma counters_never_decrease_witness :
  (seenCount asking (lit "1")
   <= seenCount (@step Vietnamese.table asking (ClickOption 0)) (lit "1"))%Z.
Proof.
  apply (@counters_never_decrease Vietnamese.table asking (ClickOption 0) (lit "1")).
  discriminate.
Defined.

Lemma star_toggles_witness :
  default false (starred (progress (@step Vietnamese.table asking ClickStar)) !! lit "1")
  = true.
Proof.
  destruct (@star_toggles Vietnamese.table asking statement) as (_ & Hflip & _);
    [reflexivity |].
  change (q_id statement) with (lit "1") in Hflip. rewrite Hflip. reflexivity.
Defined.

End CounterFacts.

(** ** The session *)
Module SessionFacts.
Import Text Bank Store App Summary Examples Cases AppFacts.

(** A question is current exactly when the position is inside the working
    set. *)
Lemma current_inRange st : is_Some (current st) <-> inRange st.
Proof.
  unfold current, inRange, total. destruct (Z.leb_spec 0 (idx st)) as [H0 | H0].
  - rewrite lookup_lt_is_Some. lia.
  - split; [by intros [? ?] | lia].
Qed.

(** X20: the first click decides: a second call of [handleOptionClick], with the
    same or another option, changes nothing any more. *)
Theorem first_click_decides (st : State) (i j : Z) :
  handleOptionClick j (handleOptionClick i st) = handleOptionClick i st.
Proof.
  destruct (revealed st) eqn:Hrev.
  - rewrite (handleOptionClick_revealed i st Hrev).
    by apply handleOptionClick_revealed.
  - destruct (current st) as [cur |] eqn:Hcur.
    + rewrite (handleOptionClick_graded i st cur Hrev Hcur).
      by apply handleOptionClick_revealed.
    + unfold handleOptionClick. by rewrite Hrev, Hcur, Hrev, Hcur.
Qed.

Section WithUnicode.
Context {U : Unicode}.

(** X21: with no current question, the working set being empty for one, the page
    is inert: every event except the confirmed reset leaves the state as it
    is. *)
Theorem no_question_no_effect (st : State) (ev : Event) :
  (working st = [] -> current st = None)
  /\ (current st = None -> ev <> ClickReset true -> step st ev = st).
Proof.
  split.
  - intros Hws. unfold current. rewrite Hws. by destruct (0 <=? idx st)%Z.
  - intros Hcur Hev. unfold step.
    assert (handle ev st = st) as ->; [| apply afterRender_same].
    unfold handle, onKey. rewrite Hcur.
    destruct ev as [| | | | | [] | |]; done.
Qed.

(** X22: whenever an event changes the position, the answer on display is
    cleared: no option selected, empty input, not revealed, no verdict. *)
Theorem position_change_clears (st : State) (ev : Event) :
  idx (step st ev) <> idx st ->
  selected (step st ev) = None /\ fillValue (step st ev) = []
  /\ revealed (step st ev) = false /\ isCorrect (step st ev) = None.
Proof.
  unfold step, afterRender, questionChanged.
  destruct (Z.eqb_spec (idx st) (idx (handle ev st))) as [Heq | Hne]; cbn [negb orb].
  - destruct (negb _); [done |]. intros H. by destruct H.
  - done.
Qed.

(** X23: a verdict is on display exactly when the question is revealed: every
    event keeps this, so it holds all along a session from its start. *)
Theorem verdict_iff_revealed (st : State) (evs : list Event) :
  (verdictShown st -> verdictShown (foldl step st evs))
  /\ (forall p ws, verdictShown (foldl step (start p ws) evs)).
Proof.
  assert (forall qid ok sel s, verdictShown (grade qid ok sel s)) as Hgrade.
  { intros. unfold verdictShown. cbn. by split. }
  assert (forall s, verdictShown (resetQuestion s)) as Hreset.
  { intros. unfold verdictShown. cbn. split; [done | by intros [? ?]]. }
  assert (forall s i, verdictShown s -> verdictShown (handleOptionClick i s)) as Hclick.
  { intros s i Hs. unfold handleOptionClick. by repeat case_match. }
  assert (forall s, verdictShown s -> verdictShown (checkFill s)) as Hcheck.
  { intros s Hs. unfold checkFill. by repeat case_match. }
  assert (forall s, verdictShown s -> verdictShown (next s)) as Hnext.
  { intros s Hs. unfold next. by case_match. }
  assert (forall s, verdictShown s -> verdictShown (prev s)) as Hprev.
  { intros s Hs. unfold prev. by case_match. }
  assert (forall s ev, verdictShown s -> verdictShown (step s ev)) as Hstep.
  { intros s ev Hs. unfold step, afterRender.
    destruct (questionChanged _ _); [apply Hreset |].
    unfold handle, onKey. repeat case_match; auto. }
  assert (forall s, verdictShown s -> verdictShown (foldl step s evs)) as Hrun.
  { induction evs as [| ev evs IH]; intros s Hs; [done |]. simpl. auto. }
  split; [apply Hrun |]. intros p ws. apply Hrun.
  unfold verdictShown. cbn. split; [done | by intros [? ?]].
Qed.

Lemma Number_of_digit d :
  d <= 9 -> Number_of_key (Printing (48 + d)) = Some (Z.of_N d).
Proof.
  intros Hd. cbn.
  destruct (N.leb_spec 48 (48 + d)); [| lia].
  destruct (N.leb_spec (48 + d) 57); [| lia].
  cbn. f_equal. lia.
Qed.

(** X24: the quick-select keys do what a click does: outside the text input the
    key of a digit [d] from 1 to 9 has, in every state, the effect of a
    click on option [d - 1]; and a digit that names no option, 0 or one
    beyond the last option, leaves the state as it is. *)
Theorem quick_select_is_click (st : State) (d : N) (ctrl meta : bool) :
  d <= 9 ->
  (1 <= d ->
     step st (KeyDown (digitKey d ctrl meta))
     = step st (ClickOption (N.to_nat d - 1)))
  /\ (forall cur ops, current st = Some cur -> options cur = Some ops ->
        d = 0 \/ (length ops < N.to_nat d)%nat ->
        step st (KeyDown (digitKey d ctrl meta)) = st).
Proof.
  intros Hd. pose proof (Number_of_digit d Hd) as Hnum. split.
  - intros H1. unfold step. f_equal. unfold handle, onKey.
    destruct (current st) as [cur |]; [| done].
    cbn [targetIsInput digitKey key]. rewrite Hnum.
    destruct (options cur) as [ops |]; [| done].
    replace (Z.of_nat (N.to_nat d - 1)) with (Z.of_N d - 1)%Z by lia.
    destruct (isChoice (q_type cur)); [| done]. cbn [andb].
    destruct (revealed st) eqn:Hrev; cbn [negb andb].
    + rewrite handleOptionClick_revealed by done. by case_match.
    + destruct (Z.leb_spec 1 (Z.of_N d)); [| lia]. cbn [andb].
      destruct (Z.leb_spec (Z.of_N d) (Z.of_nat (length ops)));
        case_bool_decide; try lia; done.
  - intros cur ops Hcur Hops Hout. unfold step.
    assert (handle (KeyDown (digitKey d ctrl meta)) st = st) as ->;
      [| apply afterRender_same].
    unfold handle, onKey. rewrite Hcur. cbn [targetIsInput digitKey key].
    rewrite Hnum, Hops.
    destruct (isChoice _ && negb _); [| done]. cbn [andb].
    destruct (Z.leb_spec 1 (Z.of_N d)); [| done]. cbn [andb].
    destruct (Z.leb_spec (Z.of_N d) (Z.of_nat (length ops))); [lia | done].
Qed.

(** X25: going on and coming back: from a revealed question that is not the
    last, the next button and then the previous button lead to the same
    question with the answer on display cleared and every counter as it was;
    the question can then be answered, and is counted, once more. *)
Theorem there_and_back_again (st : State) (cur : Question) :
  current st = Some cur -> revealed st = true ->
  (idx st < total st - 1)%Z ->
  let back := step (step st ClickNext) ClickPrev in
  back = resetQuestion st
  /\ current back = Some cur /\ progress back = progress st
  /\ revealed back = false
  /\ forall optIdx,
       seenCount (handleOptionClick optIdx back) (q_id cur)
       = (seenCount st (q_id cur) + 1)%Z.
Proof.
  intros Hcur Hrev Hlast back.
  assert (0 <= idx st)%Z as H0.
  { unfold current in Hcur. by destruct (Z.leb_spec 0 (idx st)). }
  assert (step st ClickNext = resetQuestion (setIdx (idx st + 1) st)) as Hnext.
  { unfold step, handle. rewrite Hcur, Hrev. cbn [andb].
    destruct (Z.leb_spec (total st - 1) (idx st)); [lia |]. cbn [negb].
    unfold next. destruct (Z.ltb_spec (idx st) (total st - 1)); [| lia].
    unfold afterRender, questionChanged. cbn [idx setIdx].
    destruct (Z.eqb_spec (idx st) (idx st + 1)); [lia | done]. }
  assert (is_Some (current (step st ClickNext))) as [nxt Hnxt].
  { apply current_inRange. rewrite Hnext. unfold inRange, total. cbn. 
    unfold total in Hlast. lia. }
  assert (back = resetQuestion st) as Hback.
  { unfold back, step at 1, handle. rewrite Hnxt. rewrite Hnext.
    cbn [idx resetQuestion setIdx].
    destruct (Z.eqb_spec (idx st + 1) 0); [lia |]. cbn [negb].
    unfold prev. cbn [idx resetQuestion setIdx].
    destruct (Z.ltb_spec 0 (idx st + 1)); [| lia].
    unfold afterRender, questionChanged. cbn [idx resetQuestion setIdx].
    destruct (Z.eqb_spec (idx st + 1) (idx st + 1 - 1)); [lia |]. cbn [negb orb].
    unfold resetQuestion, setIdx. cbn. destruct st; cbn. f_equal. lia. }
  assert (current back = Some cur) as Hcb by by rewrite Hback.
  split; [exact Hback |]. split; [exact Hcb |]. split; [by rewrite Hback |].
  split; [by rewrite Hback |].
  intros optIdx. rewrite (handleOptionClick_graded _ _ cur); [| by rewrite Hback | done].
  destruct (grade_counts (q_id cur) (isCorrectOption optIdx cur) (Some optIdx) back)
    as (Hs & _). rewrite Hs. by rewrite Hback.
Qed.

(** X26: the keyboard shortcuts are the buttons.  Outside the text input Enter
    does what the next button does and Backspace with Ctrl or Meta what the
    previous button does; in the text input Enter is the check button
    before the reveal and the next button after it. *)
Theorem keyboard_is_buttons (st : State) (ctrl meta : bool) :
  let press k inside :=
    KeyDown {| key := k; targetIsInput := inside; ctrlKey := ctrl; metaKey := meta |} in
  step st (press Enter false) = step st ClickNext
  /\ (ctrl || meta = true -> step st (press Backspace false) = step st ClickPrev)
  /\ (ctrl || meta = false -> step st (press Backspace false) = st)
  /\ step st (press Enter true)
     = (if revealed st then step st ClickNext else step st ClickCheck).
Proof.
  intros press.
  assert (forall s, next s = if negb (total s - 1 <=? idx s)%Z then next s else s) as Hnext.
  { intros s. unfold next. destruct (Z.leb_spec (total s - 1) (idx s)); [| done].
    cbn. destruct (Z.ltb_spec (idx s) (total s - 1)); [lia | done]. }
  assert (forall s, prev s = if negb (idx s =? 0)%Z then prev s else s) as Hprev.
  { intros s. destruct (Z.eqb_spec (idx s) 0) as [H0 | H0]; [| done].
    cbn. unfold prev. by rewrite H0. }
  assert (forall s, checkFill s
            = match current s with
              | None => s
              | Some cur =>
                  if bool_decide (q_type cur = fill_in_blank)
                     && negb (isBlank (fillValue s))
                  then checkFill s else s
              end) as Hcheck.
  { intros s. unfold checkFill. destruct (current s) as [cur |]; [| done].
    destruct (bool_decide _); [| done]. cbn. by destruct (isBlank _). }
  unfold step, press, handle, onKey. cbn [key targetIsInput ctrlKey metaKey].
  destruct (current st) as [cur |] eqn:Hcur.
  - split; [| split; [| split]].
    + destruct (revealed st); [| done]. cbn [andb]. by rewrite <- Hnext.
    + intros ->. by rewrite <- Hprev.
    + intros ->. apply afterRender_same.
    + destruct (revealed st) eqn:Hrev; cbn [negb andb].
      * by rewrite <- Hnext.
      * rewrite andb_true_r. f_equal. rewrite (Hcheck st) at 1. by rewrite Hcur.
  - split; [| split; [| split]]; try done.
    + intros _. apply afterRender_same.
    + by destruct (revealed st).
Qed.

End WithUnicode.

Lemma no_question_no_effect_witness :
  @step Vietnamese.table (start noProgress []) ClickNext = start noProgress [].
Proof.
  apply (@no_question_no_effect Vietnamese.table (start noProgress []) ClickNext).
  - reflexivity.
  - discriminate.
Defined.

Lemma position_change_clears_witness :
  revealed (@step Vietnamese.table answered ClickPrev) = false
  /\ fillValue (@step Vietnamese.table answered ClickPrev) = [].
Proof.
  destruct (@position_change_clears Vietnamese.table answered ClickPrev)
    as (_ & Hfill & Hrev & _); [vm_compute; discriminate |].
  split; [exact Hrev | exact Hfill].
Defined.

Lemma verdict_iff_revealed_witness :
  verdictShown (foldl (@step Vietnamese.table) (start noProgress [statement; capital])
                      [ClickOption 0; ClickNext]).
Proof.
  apply (@verdict_iff_revealed Vietnamese.table asking [ClickOption 0; ClickNext]).
Defined.

Lemma quick_select_is_click_witness :
  @step Vietnamese.table asking (KeyDown (digitKey 1 false false))
  = @step Vietnamese.table asking (ClickOption 0).
Proof.
  apply (@quick_select_is_click Vietnamese.table asking 1 false false); lia.
Defined.

Lemma there_and_back_again_witness :
  let decided := handleOptionClick 0 asking in
  @step Vietnamese.table (@step Vietnamese.table decided ClickNext) ClickPrev
  = resetQuestion decided.
Proof.
  apply (@there_and_back_again Vietnamese.table (handleOptionClick 0 asking) statement);
    reflexivity.
Defined.

Lemma keyboard_is_buttons_witness :
  @step Vietnamese.table answered
    (KeyDown {| key := Backspace; targetIsInput := false;
                ctrlKey := true; metaKey := false |})
  = @step Vietnamese.table answered ClickPrev.
Proof.
  apply (@keyboard_is_buttons Vietnamese.table answered true false). reflexivity.
Defined.

End SessionFacts.

(** ** The filter menu *)
Module MenuFacts.
Import Bank Store App Summary Examples.

Section SetFrom.
Context {A : Type} `{EqDecision A}.
Implicit Types (have l : list A).

Lemma setFrom_spec have l :
  NoDup have ->
  NoDup (setFrom have l)
  /\ (forall x, x ∈ setFrom have l <-> x ∈ have \/ x ∈ l).
Proof.
  revert have. induction l as [| y l IH]; intros have Hnd.
  - split; [done |]. intros x. rewrite elem_of_nil. tauto.
  - cbn [setFrom]. destruct (decide (y ∈ have)) as [Hy | Hy].
    + destruct (IH have Hnd) as [Hnd' Hmem]. split; [done |].
      intros x. rewrite Hmem, elem_of_cons. split; [tauto |].
      intros [? | [-> | ?]]; tauto.
    + destruct (IH (have ++ [y])) as [Hnd' Hmem].
      { apply NoDup_app. split; [done |]. split; [| apply NoDup_singleton].
        intros x Hx ->%list_elem_of_singleton. done. }
      split; [done |]. intros x.
      rewrite Hmem, elem_of_app, list_elem_of_singleton, elem_of_cons. tauto.
Qed.
End SetFrom.

Lemma countOfType_cons q (l : list Question) t :
  countOfType (q :: l) t
  = ((if decide (q_type q = t) then 1 else 0) + countOfType l t)%nat.
Proof.
  unfold countOfType. rewrite filter_cons. by destruct (decide (q_type q = t)).
Qed.

Lemma sum_indicator (x : QType) (ts : list QType) :
  NoDup ts -> x ∈ ts ->
  sum_list ((fun t => if decide (x = t) then 1 else 0)%nat <$> ts) = 1%nat.
Proof.
  induction 1 as [| t ts Ht Hnd IH]; [by intros ?%elem_of_nil |].
  rewrite fmap_cons. cbn [sum_list]. intros [-> | Hin]%elem_of_cons.
  - rewrite decide_True by done.
    assert (sum_list ((fun t' => if decide (t = t') then 1 else 0)%nat <$> ts) = 0%nat) as ->; [| done].
    clear IH Hnd. induction ts as [| t' ts IH]; [done |].
    rewrite fmap_cons. cbn [sum_list].
    rewrite decide_False by (intros ->; apply Ht; left).
    rewrite IH; [done |]. intros H. apply Ht. by right.
  - rewrite decide_False by (intros ->; done). by rewrite IH.
Qed.

Lemma sum_counts (l : list Question) (ts : list QType) :
  NoDup ts -> (forall q, q ∈ l -> q_type q ∈ ts) ->
  sum_list (countOfType l <$> ts) = length l.
Proof.
  intros Hnd. induction l as [| q l IH]; intros Hall.
  - clear. induction ts as [| t ts IH]; [done |]. rewrite fmap_cons. by cbn.
  - assert (sum_list (countOfType (q :: l) <$> ts)
            = (sum_list ((fun t => if decide (q_type q = t) then 1 else 0)%nat <$> ts)
               + sum_list (countOfType l <$> ts))%nat) as ->.
    { clear. induction ts as [| t ts IH]; [done |]. rewrite !fmap_cons. cbn [sum_list].
      rewrite IH, countOfType_cons. unfold id. lia. }
    rewrite sum_indicator, IH; [done | | done |].
    + intros q' Hq'. apply Hall. by right.
    + apply Hall. left.
Qed.

(** X27: the type menu lists every type that occurs in the bank, each once, and
    no other; the count shown beside a listed type is positive, and the
    counts of the listed types add up to the number of questions. *)
Theorem availableTypes_cover (QUESTIONS : list Question) :
  NoDup (availableTypes QUESTIONS)
  /\ (forall t, t ∈ availableTypes QUESTIONS <-> exists q, q ∈ QUESTIONS /\ q_type q = t)
  /\ (forall t, t ∈ availableTypes QUESTIONS <-> (0 < countOfType QUESTIONS t)%nat)
  /\ sum_list (countOfType QUESTIONS <$> availableTypes QUESTIONS) = length QUESTIONS.
Proof.
  unfold availableTypes.
  destruct (setFrom_spec [] (q_type <$> QUESTIONS)) as [Hnd Hmem]; [constructor |].
  assert (forall t, t ∈ setFrom [] (q_type <$> QUESTIONS)
                    <-> exists q, q ∈ QUESTIONS /\ q_type q = t) as Hin.
  { intros t. rewrite Hmem, elem_of_nil, list_elem_of_fmap. split.
    - intros [[] | (q & -> & Hq)]. eauto.
    - intros (q & Hq & <-). right. eauto. }
  split; [exact Hnd |]. split; [exact Hin |]. split.
  - intros t. rewrite Hin. unfold countOfType. split.
    + intros (q & Hq & Ht).
      assert (q ∈ filter (fun q => q_type q = t) QUESTIONS) as Hf
        by by apply list_elem_of_filter.
      destruct (filter _ QUESTIONS); [by apply elem_of_nil in Hf | simpl; lia].
    + intros Hpos. destruct (filter _ QUESTIONS) as [| q l] eqn:E; [simpl in Hpos; lia |].
      assert (q ∈ filter (fun q => q_type q = t) QUESTIONS) as Hf by (rewrite E; left).
      apply list_elem_of_filter in Hf as [? ?]. eauto.
  - apply sum_counts; [done |]. intros q Hq. apply Hin. eauto.
Qed.

Example availableTypes_two :
  availableTypes [statement; capital; statement] = [true_false; fill_in_blank].
Proof. reflexivity. Qed.

End MenuFacts.

(** ** A change in a filter menu *)
Module PageFacts.
Import Bank Store Sampler App Summary Page Examples Cases.

(** A render succeeds exactly when there is nothing to show or the position
    is inside the working set. *)
Lemma render_returns (st : State) :
  (exists label, render st = Return label) <-> working st = [] \/ inRange st.
Proof.
  unfold render, empty, inRange, total, current.
  destruct (working st) as [| q ws] eqn:Hws.
  - split; [by left | by exists None].
  - cbn [length]. rewrite (proj2 (Z.eqb_neq _ 0)) by lia.
    destruct (Z.leb_spec 0 (idx st)) as [Hpos | Hneg].
    + destruct ((q :: ws) !! Z.to_nat (idx st)) as [cur |] eqn:Hcur.
      * apply lookup_lt_Some in Hcur. cbn [length] in Hcur.
        split; [right; lia | by eexists].
      * apply lookup_ge_None in Hcur. cbn [length] in Hcur.
        split; [by intros [label H] | intros [H | H]; [done | lia]].
    + split; [by intros [label H] | intros [H | H]; [done | lia]].
Qed.

Lemma render_throws (st : State) :
  render st = Throw TypeError <-> working st <> [] /\ ~ inRange st.
Proof.
  pose proof (render_returns st) as Hret. split.
  - intros Hthrow. split.
    + intros Hws. destruct (proj2 Hret (or_introl Hws)) as [label H]. congruence.
    + intros Hin. destruct (proj2 Hret (or_intror Hin)) as [label H]. congruence.
  - intros [Hws Hout]. unfold render in *. destruct (empty st) eqn:He.
    + destruct Hret as [Hret _]. destruct Hret as [H | H]; [by eexists | done ..].
    + destruct (current st) eqn:Hcur; [| done].
      destruct Hret as [Hret _]. destruct Hret as [H | H]; [by eexists | done ..].
Qed.

(** The render after the index has been put back to 0 cannot fail. *)
Lemma render_at_zero (ws : list Question) (st : State) :
  exists label, render (setWorking ws (setIdx 0 st)) = Return label.
Proof.
  apply render_returns. destruct ws as [| q ws]; [by left | right].
  unfold inRange, total. cbn. lia.
Qed.

(** When a change in a menu fails: the filters differ, the working set
    computed for the new filters is not empty, and the position, which has
    not been reset yet, is beyond its end. *)
Lemma changeFilters_throws (QUESTIONS : list Question) (first second : Reading)
    (ev : MenuEvent) (p : Page) :
  let f := setFilters ev (filters p) in
  let ws := filtered QUESTIONS f (stored first) (random first) in
  (0 <= idx (card p))%Z ->
  (exists e, changeFilters QUESTIONS first second ev p = Throw e)
  <-> f <> filters p /\ ws <> [] /\ (Z.of_nat (length ws) <= idx (card p))%Z.
Proof.
  intros f ws Hpos. unfold changeFilters. fold f. fold ws.
  destruct (decide (f = filters p)) as [Hsame | Hdiff].
  { split; [by intros [e H] | by intros [H _]]. }
  pose proof (render_throws (setWorking ws (card p))) as Hthrow.
  pose proof (render_returns (setWorking ws (card p))) as Hret.
  unfold inRange, total in Hthrow, Hret. cbn [working idx setWorking] in Hthrow, Hret.
  destruct (render (setWorking ws (card p))) as [label | e] eqn:Hrender; cbn [bind].
  - destruct (render_at_zero
                (filtered QUESTIONS f (stored second) (random second))
                (afterRender (card p) (setWorking ws (card p)))) as [label' ->].
    cbn [bind]. split; [by intros [e H] |].
    intros (_ & Hws & Hidx).
    destruct Hret as [Hret _]. destruct Hret as [H | H]; [by eexists | done | lia].
  - split; [| by eexists]. intros _. split; [done |].
    assert (e = TypeError) as ->.
    { unfold render in Hrender. repeat case_match; congruence. }
    destruct Hthrow as [Hthrow _]. destruct Hthrow as [Hws Hout]; [done |].
    split; [done | lia].
Qed.

(** When it succeeds the page is on the first question of the working set
    of the second computation, or on the empty notice, with the progress it
    had. *)
Lemma changeFilters_returns (QUESTIONS : list Question) (first second : Reading)
    (ev : MenuEvent) (p p' : Page) :
  setFilters ev (filters p) <> filters p ->
  changeFilters QUESTIONS first second ev p = Return p' ->
  filters p' = setFilters ev (filters p)
  /\ sessionKey p' = (sessionKey p + 1)%Z
  /\ working (card p')
     = filtered QUESTIONS (filters p') (stored second) (random second)
  /\ idx (card p') = 0%Z
  /\ progress (card p') = progress (card p)
  /\ (working (card p') <> [] -> inRange (card p')).
Proof.
  intros Hdiff. unfold changeFilters. cbn zeta.
  destruct (decide (setFilters ev (filters p) = filters p)) as [Hsame | _];
    [by destruct Hdiff |].
  destruct (render _) as [label | e]; cbn [bind]; [| discriminate].
  destruct (render _) as [label' | e]; cbn [bind]; [| discriminate].
  intros [= <-]. cbn [card filters sessionKey].
  set (st1 := setWorking _ (card p)).
  set (st2 := setWorking _ (setIdx 0 _)).
  assert (working (afterRender st1 st2) = working st2) as Hw.
  { unfold afterRender. by destruct (questionChanged st1 st2). }
  assert (idx (afterRender st1 st2) = 0%Z) as Hi.
  { unfold afterRender. by destruct (questionChanged st1 st2). }
  assert (progress (afterRender st1 st2) = progress (card p)) as Hp.
  { rewrite AppFacts.progress_afterRender. subst st2. cbn [progress setWorking setIdx].
    by rewrite AppFacts.progress_afterRender. }
  split; [done |]. split; [done |]. split; [by rewrite Hw |].
  split; [done |]. split; [done |].
  intros Hne. unfold inRange, total. rewrite Hi. rewrite Hw in Hne |- *.
  destruct (working st2); [done | cbn [length]; lia].
Qed.

(** Opening the page cannot fail: both renders are at position 0. *)
Lemma mount_returns (QUESTIONS : list Question) (loaded : Progress)
    (first second : Reading) :
  exists p, mount QUESTIONS loaded first second = Return p
    /\ idx (card p) = 0%Z /\ sessionKey p = 1%Z /\ filters p = initialFilters
    /\ progress (card p) = loaded.
Proof.
  unfold mount.
  set (st1 := start loaded _).
  destruct (proj2 (render_returns st1)) as [label ->].
  { destruct (working st1) eqn:Hws; [by left | right].
    unfold inRange, total. rewrite Hws. cbn. lia. }
  cbn [bind].
  destruct (render_at_zero
              (filtered QUESTIONS initialFilters (stored second) (random second))
              (resetQuestion st1)) as [label' ->].
  cbn [bind]. eexists. split; [reflexivity |]. cbn [card sessionKey filters].
  unfold afterRender. by destruct (questionChanged _ _).
Qed.

(** The events of the card and the keyboard keep a page that renders a
    page that renders. *)
Lemma cardEvents_render {U : Text.Unicode} (evs : list Event) (p : Page) :
  (exists label, render (card p) = Return label) ->
  exists label, render (card (cardEvents evs p)) = Return label.
Proof.
  rewrite !render_returns. cbn [card cardEvents].
  assert (forall st, working (foldl step st evs) = working st) as Hws.
  { induction evs as [| ev evs IH]; intros st; [done |].
    cbn [foldl]. rewrite IH. apply (AppFacts.step_moved st ev). }
  intros [Hempty | Hin].
  - left. by rewrite Hws.
  - right. by apply AppFacts.run_inRange.
Qed.

(** C8: the position is not always inside the working set.  A user opens
    the page on three questions, sets the mode "all" and bank order,
    answers the first two questions and is on the third: position 2, inside
    the working set.  Picking the fill-in type in the type menu computes a
    working set of one question while the position is still 2, so the
    position is outside [0 <= position < len(WorkingSet)], [current] is
    [undefined] although the working set is not empty, and the render
    throws a [TypeError] before the effect that resets the position can
    run. *)
Theorem filter_change_stale_position :
  let before := card onThird in
  let after := setWorking (filtered three onlyFillIn noProgress draws) before in
  (p <- opened ;; Return (@cardEvents Vietnamese.table twoAnswered p)) = Return onThird
  /\ (idx before = 2%Z /\ total before = 3%Z /\ inRange before
      /\ render before = Return (Some (typeLabel (numbered 3))))
  /\ setFilters (ChangeType (type_only fill_in_blank)) (filters onThird) = onlyFillIn
  /\ (working after = [capital] /\ idx after = 2%Z /\ total after = 1%Z)
  /\ ~ inRange after
  /\ current after = None
  /\ render after = Throw TypeError
  /\ changeFilters three fresh fresh (ChangeType (type_only fill_in_blank)) onThird
     = Throw TypeError.
Proof.
  cbn zeta.
  split; [vm_compute; reflexivity |].
  split; [unfold inRange; vm_compute; repeat split; congruence |].
  split; [reflexivity |].
  split; [vm_compute; repeat split |].
  split; [unfold inRange; vm_compute; intros [_ H]; discriminate H |].
  split; vm_compute; reflexivity || (split; reflexivity).
Qed.

(** The same change made on the first question goes through. *)
Example filter_change_from_first :
  let p := atRest three allInOrder fresh (start noProgress []) 3 in
  exists p',
    changeFilters three fresh fresh (ChangeType (type_only fill_in_blank)) p
    = Return p'
    /\ working (card p') = [capital] /\ idx (card p') = 0%Z
    /\ sessionKey p' = 4%Z.
Proof. eexists. vm_compute. repeat split; reflexivity. Qed.

End PageFacts.
